(** * A2A sample agents: task manager and SQL agent

    Shallow embedding of
    - [samples/python/agents/generic_agent/task_manager.py] (class
      [TaskManager]: request validation, the synchronous send path, the
      streaming driver and the push-notification hooks), and
    - [samples/python/agents/sql_agent/agent.py] (class [SQLAgent]).

    Python coroutines are run to completion one after the other, so an
    [async def] becomes a computation in a state-and-exception monad over
    the in-memory task manager.  Mutations made before an exception is
    raised stay in the state, as they do in Python. *)

From Stdlib Require Import Ascii.
From stdpp Require Import gmap strings list fin_maps pretty.

Local Open Scope string_scope.
Local Open Scope list_scope.
Local Open Scope stdpp_scope.

(** ** Python exceptions and results *)

Module Py.

(** The exceptions the modelled code can raise.  An f-string that
    interpolates a caught exception [e] is kept structured: the literal
    text and the interpolated exception.  [Raised] is an exception of a
    collaborator whose class derives from [Exception]; [RaisedBase] is
    one whose class derives from [BaseException] only
    ([KeyboardInterrupt], [SystemExit], [asyncio.CancelledError]). *)
Inductive exn : Type :=
| NameError (name : string)
| UnboundLocalError (name : string)
| IndexError
| AttributeError (attr : string)
| NotFoundError (task_id : string)
| ValueError (text : string)
| ValueError_f (text : string) (interpolated : exn)
| Raised (cls : string) (text : string)
| RaisedBase (cls : string) (text : string).

(** Whether [except Exception] catches the exception. *)
Definition is_exception (e : exn) : bool :=
  match e with
  | RaisedBase _ _ => false
  | _ => true
  end.

Inductive Result (A : Type) : Type :=
| Ok (a : A)
| Raise (e : exn).
Arguments Ok {A} a.
Arguments Raise {A} e.

Definition is_ok {A} (r : Result A) : bool :=
  match r with Ok _ => true | Raise _ => false end.

(** Logging calls: the level and the format string as written in the
    source (placeholders are not expanded). *)
Inductive Level := INFO | WARNING | ERROR.
Record LogRecord := { level : Level; template : string }.

(** Global names of a module: looking up a name that is not bound raises
    [NameError]. *)
Definition bound (globals : list string) (name : string) : bool :=
  existsb (String.eqb name) globals.

End Py.

Export Py.

(** ** The protocol types ([common.types])

    Modelled from the spec: the type declarations of [common.types] that
    [task_manager.py] imports.  The records carry the fields the task
    manager reads and writes, with the shapes of the specification's data
    model and event wire shape. *)

Module Types.

Inductive TaskState := SUBMITTED | WORKING | INPUT_REQUIRED | COMPLETED | FAILED.

(** A message part: a text part, or a part of another kind (file, data). *)
Inductive Part :=
| TextPart (text : string)
| OtherPart (type : string).

Record Message := { role : string; parts : list Part }.

Record TaskStatus := { state : TaskState; message : option Message }.

(** [Artifact(parts=...)] leaves [index] at its default 0 and [append]
    unset. *)
Record Artifact := {
  artifact_parts : list Part;
  index : Z;
  append : option bool
}.

Record PushNotificationConfig := { url : string }.

Record Task := {
  task_id : string;
  task_sessionId : string;
  status : TaskStatus;
  history : list TaskStatus;
  artifacts : list Artifact
}.

Record TaskSendParams := {
  id : string;
  sessionId : string;
  params_message : Message;
  acceptedOutputModes : list string;
  pushNotification : option PushNotificationConfig;
  historyLength : option nat
}.

(** [SendTaskRequest] and [SendTaskStreamingRequest] have the same
    fields. *)
Record Request := { request_id : string; params : TaskSendParams }.

Inductive JSONRPCError :=
| InvalidParamsError (msg : string)
| InternalError (msg : string)
| InternalError_f (msg : string) (interpolated : exn).

(** [JSONRPCResponse] and [SendTaskResponse]. *)
Record JSONRPCResponse := {
  response_id : string;
  result : option Task;
  error : option JSONRPCError
}.

(** What is put on a subscriber's queue. *)
Inductive QueueItem :=
| TaskStatusUpdateEvent (id : string) (status : TaskStatus) (final : bool)
| TaskArtifactUpdateEvent (id : string) (artifact : Artifact)
| ErrorItem (error : JSONRPCError).

(** The dictionary an agent returns or yields.  A key may be absent; the
    code reads it with [dict.get]. *)
Record AgentItem := {
  content : option string;
  is_task_complete : option bool;
  require_user_input : option bool
}.

#[global] Instance TaskState_eq_dec : EqDecision TaskState.
Proof. solve_decision. Defined.
#[global] Instance Part_eq_dec : EqDecision Part.
Proof. solve_decision. Defined.
#[global] Instance Message_eq_dec : EqDecision Message.
Proof. solve_decision. Defined.
#[global] Instance TaskStatus_eq_dec : EqDecision TaskStatus.
Proof. solve_decision. Defined.
#[global] Instance Artifact_eq_dec : EqDecision Artifact.
Proof. solve_decision. Defined.

End Types.

Export Types.

(** ** The in-memory task manager and its collaborators *)

Module Store.

(** The state of one [TaskManager] object, together with what it has
    handed to the outside: the background tasks it created, the calls made
    to the push-notification sender, and the log. *)
Record TM := {
  tasks : gmap string Task;
  push_notification_infos : gmap string PushNotificationConfig;
  task_sse_subscribers : gmap string (list (list QueueItem));
  background : list Request;
  push_calls : list (string * Task);
  log : list LogRecord
}.

Definition empty_TM : TM :=
  {| tasks := ∅; push_notification_infos := ∅; task_sse_subscribers := ∅;
     background := []; push_calls := []; log := [] |}.

Definition set_tasks (f : gmap string Task → gmap string Task) (s : TM) : TM :=
  {| tasks := f (tasks s);
     push_notification_infos := push_notification_infos s;
     task_sse_subscribers := task_sse_subscribers s;
     background := background s; push_calls := push_calls s; log := log s |}.

Definition set_push_notification_infos
    (f : gmap string PushNotificationConfig → gmap string PushNotificationConfig)
    (s : TM) : TM :=
  {| tasks := tasks s;
     push_notification_infos := f (push_notification_infos s);
     task_sse_subscribers := task_sse_subscribers s;
     background := background s; push_calls := push_calls s; log := log s |}.

Definition set_task_sse_subscribers
    (f : gmap string (list (list QueueItem)) → gmap string (list (list QueueItem)))
    (s : TM) : TM :=
  {| tasks := tasks s;
     push_notification_infos := push_notification_infos s;
     task_sse_subscribers := f (task_sse_subscribers s);
     background := background s; push_calls := push_calls s; log := log s |}.

Definition set_background (f : list Request → list Request) (s : TM) : TM :=
  {| tasks := tasks s;
     push_notification_infos := push_notification_infos s;
     task_sse_subscribers := task_sse_subscribers s;
     background := f (background s); push_calls := push_calls s; log := log s |}.

Definition set_push_calls (f : list (string * Task) → list (string * Task)) (s : TM) : TM :=
  {| tasks := tasks s;
     push_notification_infos := push_notification_infos s;
     task_sse_subscribers := task_sse_subscribers s;
     background := background s; push_calls := f (push_calls s); log := log s |}.

Definition set_log (f : list LogRecord → list LogRecord) (s : TM) : TM :=
  {| tasks := tasks s;
     push_notification_infos := push_notification_infos s;
     task_sse_subscribers := task_sse_subscribers s;
     background := background s; push_calls := push_calls s; log := f (log s) |}.

(** *** The monad of the methods *)

Definition M (A : Type) : Type := TM → Result A * TM.

Definition ret {A} (a : A) : M A := fun s => (Ok a, s).

Definition bind {A B} (m : M A) (k : A → M B) : M B :=
  fun s => match m s with
           | (Ok a, s') => k a s'
           | (Raise e, s') => (Raise e, s')
           end.

Definition raise {A} (e : exn) : M A := fun s => (Raise e, s).

(** [try: body except Exception as e: handler e].  An exception that
    does not derive from [Exception] passes through. *)
Definition try_except {A} (body : M A) (handler : exn → M A) : M A :=
  fun s => match body s with
           | (Ok a, s') => (Ok a, s')
           | (Raise e, s') =>
               if is_exception e then handler e s' else (Raise e, s')
           end.

Definition modify (f : TM → TM) : M unit := fun s => (Ok tt, f s).
Definition gets {A} (f : TM → A) : M A := fun s => (Ok (f s), s).

#[global] Instance M_ret : MRet M := @ret.
#[global] Instance M_bind : MBind M := fun A B k m => bind m k.

Definition logger (l : Level) (fmt : string) : M unit :=
  modify (set_log (fun ls => ls ++ [{| level := l; template := fmt |}])).

(** Evaluating a global name of the module. *)
Definition global (globals : list string) (name : string) : M unit :=
  if bound globals name then ret tt else raise (NameError name).

(** Reading a local variable that may not have been assigned yet. *)
Definition local {A} (name : string) (v : option A) : M A :=
  match v with
  | Some a => ret a
  | None => raise (UnboundLocalError name)
  end.

(** *** [InMemoryTaskManager] ([common.server.task_manager]) *)

(** Modelled from the spec: [upsertTask(params) -> Task], "creates a task
    if absent (status SUBMITTED, empty history) or returns the existing
    one; never fails on valid input".  The base class is not among the
    sources. *)
Definition upsert_task (p : TaskSendParams) : M Task :=
  found ← gets (λ s, tasks s !! id p);
  match found with
  | Some task => ret task
  | None =>
      let task := {| task_id := id p; task_sessionId := sessionId p;
                     status := {| state := SUBMITTED; message := None |};
                     history := []; artifacts := [] |} in
      modify (set_tasks <[id p := task]>);;
      ret task
  end.

(** Modelled from the spec: [updateStatus(id, status, artifacts?) -> Task],
    "atomically replaces status, appends artifacts if given, appends the
    previous status to history.  Fails with NotFoundError if id unknown". *)
Definition update_store (task_id : string) (st : TaskStatus)
    (arts : option (list Artifact)) : M Task :=
  found ← gets (λ s, tasks s !! task_id);
  match found with
  | None => raise (NotFoundError task_id)
  | Some old =>
      let task := {| task_id := Types.task_id old;
                     task_sessionId := task_sessionId old;
                     status := st;
                     history := history old ++ [status old];
                     artifacts := artifacts old ++ default [] arts |} in
      modify (set_tasks <[task_id := task]>);;
      ret task
  end.

(** Modelled from the spec: [appendHistory(task, maxLen) -> Task], "returns
    a copy of task with history truncated to the last maxLen entries (0 or
    unset gives an empty history in the returned copy)". *)
Definition append_task_history (task : Task) (historyLength : option nat) : Task :=
  {| task_id := task_id task; task_sessionId := task_sessionId task;
     status := status task;
     history := match historyLength with
                | Some n => drop (length (history task) - n) (history task)
                | None => []
                end;
     artifacts := artifacts task |}.

(** Modelled from the spec: [getPushConfig(id) -> Option] and
    [setPushConfig(id, config)] of the Task Store. *)
Definition has_push_notification_info (task_id : string) : M bool :=
  gets (λ s, bool_decide (is_Some (push_notification_infos s !! task_id))).

Definition get_push_notification_info (task_id : string)
    : M (option PushNotificationConfig) :=
  gets (λ s, push_notification_infos s !! task_id).

Definition super_set_push_notification_info (task_id : string)
    (config : PushNotificationConfig) : M unit :=
  modify (set_push_notification_infos <[task_id := config]>).

(** Modelled from the spec: [subscribe(taskId) -> QueueHandle], "registers
    a new consumer queue for taskId; multiple subscribers per task are
    allowed".  The handle is the position of the queue in the task's
    list. *)
Definition setup_sse_consumer (task_id : string) : M nat :=
  qs ← gets (λ s, default [] (task_sse_subscribers s !! task_id));
  modify (set_task_sse_subscribers <[task_id := qs ++ [[]]]>);;
  ret (length qs).

(** Modelled from the spec: [publish(taskId, event)], "appends event to
    every live queue for taskId, in call order; fails silently if no
    subscribers exist". *)
Definition enqueue_events_for_sse (task_id : string) (ev : QueueItem) : M unit :=
  found ← gets (λ s, task_sse_subscribers s !! task_id);
  match found with
  | None => ret tt
  | Some qs =>
      modify (set_task_sse_subscribers <[task_id := (λ q, q ++ [ev]) <$> qs]>)
  end.

(** Modelled from the spec: "output-mode compatibility against the agent's
    declared supported content types"; a request whose accepted output
    modes exclude all of the supported content types is incompatible.
    [common.server.utils] is not among the sources. *)
Definition are_modalities_compatible (accepted supported : list string) : bool :=
  existsb (λ m, bool_decide (m ∈ supported)) accepted.

(** *** Collaborators *)

(** The agent plug-in: [invoke] returns a dictionary or raises; [stream]
    yields dictionaries and then ends, normally or with an exception. *)
Record Agent := {
  SUPPORTED_CONTENT_TYPES : list string;
  invoke : string → string → Result AgentItem;
  stream : string → string → list AgentItem * option exn
}.

(** The push-notification sender: whether a URL verifies, and whether a
    delivery to a URL gets through. *)
Record PushNotificationSenderAuth := {
  verify_push_notification_url : string → bool;
  deliver : string → Task → bool
}.

(** Modelled from the spec: the signer/notification transport
    [deliver(url, payload)]; "delivery is fire-and-forget from the Task
    Manager's point of view -- failures are logged, never raised to the
    client, and never retried by this core".
    [common.utils.push_notification_auth] is not among the sources. *)
Definition send_push_notification (N : PushNotificationSenderAuth)
    (url : string) (data : Task) : M unit :=
  modify (set_push_calls (λ c, c ++ [(url, data)]));;
  if deliver N url data then ret tt
  else logger WARNING "push notification delivery failed".

(** Unfolds the monad operations in the goal and the hypotheses. *)
Ltac run :=
  unfold mbind, M_bind, bind, ret, raise, gets, modify, try_except,
    logger, global, local in *;
  simpl in *.

End Store.

Export Store.

(** ** [generic_agent/task_manager.py]: class [TaskManager] *)

Module TaskManager.

(** [self]: the agent and the notification sender given to [__init__],
    and the module-level names bound in addition to those of the source's
    import block.  That block is marked in the source as a placeholder to
    adjust; as written it binds none of [TextPart],
    [TaskStatusUpdateEvent] and [TaskArtifactUpdateEvent], which the
    methods use. *)
Record Self := {
  agent : Agent;
  notification_sender_auth : PushNotificationSenderAuth;
  extra_imports : list string
}.

Inductive SubscribeResult :=
| EventStream (request_id task_id : string) (queue : nat)
| ErrorResponse (r : JSONRPCResponse).

(** [_validate_request] (lines 63-77).  A [JSONRPCResponse] object is
    truthy, so the callers' [if validation_error:] tests for [None]. *)
Definition _validate_request (self : Self) (request : Request)
    : M (option JSONRPCResponse) :=
  let task_send_params := params request in
  if negb (are_modalities_compatible (acceptedOutputModes task_send_params)
             (SUPPORTED_CONTENT_TYPES (agent self))) then
    logger WARNING "Unsupported output mode: {task_send_params.acceptedOutputModes}";;
    ret (Some {| response_id := request_id request; result := None;
                 error := Some (InvalidParamsError "Incompatible output modes") |})
  else
    match pushNotification task_send_params with
    | Some cfg =>
        if String.eqb (url cfg) "" then
          logger WARNING "Push notification URL is missing";;
          ret (Some {| response_id := request_id request; result := None;
                       error := Some (InvalidParamsError "Push notification URL is missing") |})
        else ret None
    | None => ret None
    end.

(** [_get_user_query] (lines 181-186): [parts[0]] raises [IndexError] on
    an empty list; [isinstance(part, TextPart)] then evaluates the global
    name [TextPart]. *)
Definition _get_user_query (self : Self) (task_send_params : TaskSendParams)
    : M string :=
  match parts (params_message task_send_params) with
  | [] => raise IndexError
  | part :: _ =>
      global (extra_imports self) "TextPart";;
      match part with
      | TextPart text => ret text
      | OtherPart _ => raise (ValueError "Only text parts are supported")
      end
  end.

(** [send_task_notification] (lines 188-198).  There is no [try] around
    the call of the sender. *)
Definition send_task_notification (self : Self) (task : Task) : M unit :=
  has ← has_push_notification_info (task_id task);
  if negb has then
    logger INFO "No push notification info for task {task.id}"
  else
    push_info ← get_push_notification_info (task_id task);
    logger INFO "Notifying task {task.id} => {task.status.state}";;
    match push_info with
    | Some cfg =>
        send_push_notification (notification_sender_auth self) (url cfg) task
    | None => raise (AttributeError "url")
    end.

(** [set_push_notification_info] (lines 200-207). *)
Definition set_push_notification_info (self : Self) (task_id : string)
    (push_notification_config : PushNotificationConfig) : M bool :=
  let is_verified :=
    verify_push_notification_url (notification_sender_auth self)
      (url push_notification_config) in
  if negb is_verified then ret false
  else
    super_set_push_notification_info task_id push_notification_config;;
    ret true.

(** [_process_agent_response] (lines 79-98).
    [agent_response.get("require_user_input")] is falsy when the key is
    absent. *)
Definition _process_agent_response (self : Self) (request : Request)
    (agent_response : AgentItem) : M JSONRPCResponse :=
  let task_send_params := params request in
  let task_id := id task_send_params in
  let history_length := historyLength task_send_params in
  let parts := [TextPart (default "" (content agent_response))] in
  let artifact : option Artifact := None in
  let '(task_status, artifact) :=
    if default false (require_user_input agent_response) then
      ({| state := INPUT_REQUIRED;
          message := Some {| role := "agent"; parts := parts |} |}, artifact)
    else
      ({| state := COMPLETED; message := None |},
       Some {| artifact_parts := parts; index := 0; append := None |}) in
  task ← update_store task_id task_status
           (match artifact with None => None | Some a => Some [a] end);
  let task_result := append_task_history task history_length in
  send_task_notification self task;;
  ret {| response_id := request_id request; result := Some task_result;
         error := None |}.

(** [on_send_task] (lines 100-119).  Only the call of [invoke] is inside
    the [try]; the handler logs and raises [ValueError]. *)
Definition on_send_task (self : Self) (request : Request) : M JSONRPCResponse :=
  validation_error ← _validate_request self request;
  match validation_error with
  | Some err =>
      ret {| response_id := request_id request; result := None;
             error := error err |}
  | None =>
      upsert_task (params request);;
      task ← update_store (id (params request))
               {| state := WORKING; message := None |} None;
      send_task_notification self task;;
      let task_send_params := params request in
      query ← _get_user_query self task_send_params;
      agent_response ←
        try_except
          (match invoke (agent self) query (sessionId task_send_params) with
           | Ok r => ret r
           | Raise e => raise e
           end)
          (λ e, logger ERROR "Error invoking agent: {e}";;
                raise (ValueError_f "Error invoking agent: " e));
      _process_agent_response self request agent_response
  end.

(** One turn of the [async for] loop of [_run_streaming_task] (lines
    145-172).  [artifact] is the local variable of that name as the
    previous turns left it: [None] while nothing has been assigned to it.
    Only the COMPLETED branch assigns it, and no turn resets it.  An
    [Artifact] object is truthy, so [if artifact:] either raises
    [UnboundLocalError] or takes its branch.  The two event classes are
    global names that are evaluated when the events are built.
    [end_stream] is only passed on as [final]; the loop has no [break]. *)
Definition stream_item (self : Self) (task_send_params : TaskSendParams)
    (item : AgentItem) (artifact : option Artifact) : M (option Artifact) :=
  let is_task_complete := default false (Types.is_task_complete item) in
  let require_user_input := default false (Types.require_user_input item) in
  let parts := [TextPart (default "" (content item))] in
  let '(task_state, message, artifact, end_stream) :=
    if negb is_task_complete && negb require_user_input then
      (WORKING, Some {| role := "agent"; parts := parts |}, artifact, false)
    else if require_user_input then
      (INPUT_REQUIRED, Some {| role := "agent"; parts := parts |}, artifact, true)
    else
      (COMPLETED, None,
       Some {| artifact_parts := parts; index := 0; append := Some false |},
       true) in
  let task_status := {| state := task_state; message := message |} in
  latest_task ← update_store (id task_send_params) task_status None;
  send_task_notification self latest_task;;
  a ← local "artifact" artifact;
  global (extra_imports self) "TaskArtifactUpdateEvent";;
  enqueue_events_for_sse (id task_send_params)
    (TaskArtifactUpdateEvent (id task_send_params) a);;
  global (extra_imports self) "TaskStatusUpdateEvent";;
  enqueue_events_for_sse (id task_send_params)
    (TaskStatusUpdateEvent (id task_send_params) task_status end_stream);;
  ret artifact.

Fixpoint stream_loop (self : Self) (task_send_params : TaskSendParams)
    (items : list AgentItem) (artifact : option Artifact) : M unit :=
  match items with
  | [] => ret tt
  | item :: rest =>
      artifact' ← stream_item self task_send_params item artifact;
      stream_loop self task_send_params rest artifact'
  end.

(** [_run_streaming_task] (lines 138-179).  The query is extracted
    before the [try]; the loop and the end of the agent's stream are
    inside it. *)
Definition _run_streaming_task (self : Self) (request : Request) : M unit :=
  let task_send_params := params request in
  query ← _get_user_query self task_send_params;
  try_except
    (let '(items, failure) :=
       stream (agent self) query (sessionId task_send_params) in
     stream_loop self task_send_params items None;;
     match failure with
     | Some e => raise e
     | None => ret tt
     end)
    (λ e, logger ERROR "Error occurred during streaming: {e}";;
          enqueue_events_for_sse (id task_send_params)
            (ErrorItem (InternalError_f
                          "An error occurred while streaming the response: " e))).

(** [on_send_task_subscribe] (lines 121-136).
    [asyncio.create_task] only schedules the driver: the request is added
    to [background], and the driver runs afterwards. *)
Definition on_send_task_subscribe (self : Self) (request : Request)
    : M SubscribeResult :=
  try_except
    (err ← _validate_request self request;
     match err with
     | Some r => ret (ErrorResponse r)
     | None =>
         upsert_task (params request);;
         let task_send_params := params request in
         sse_event_queue ← setup_sse_consumer (id task_send_params);
         modify (set_background (λ b, b ++ [request]));;
         ret (EventStream (request_id request) (id task_send_params)
                sse_event_queue)
     end)
    (λ e, logger ERROR "Error in SSE stream: {e}";;
          ret (ErrorResponse {| response_id := request_id request;
                                result := None;
                                error := Some (InternalError "Error while streaming") |})).

End TaskManager.

(** ** [sql_agent/agent.py]: class [SQLAgent] *)

Module SQLAgent.

(** A Python [str] is modelled by its code points, each below 256.
    [str.strip()] removes the characters for which [str.isspace] holds:
    in that range the codes 9-13, 28-32, 133 and 160. *)
Definition isspace (c : ascii) : bool :=
  let n := N_of_ascii c in
  ((9 <=? n) && (n <=? 13) || (28 <=? n) && (n <=? 32)
   || (n =? 133) || (n =? 160))%N.

Fixpoint lstrip (s : string) : string :=
  match s with
  | EmptyString => EmptyString
  | String c rest => if isspace c then lstrip rest else s
  end.

Fixpoint rstrip (s : string) : string :=
  match s with
  | EmptyString => EmptyString
  | String c rest =>
      match rstrip rest with
      | EmptyString => if isspace c then EmptyString else String c EmptyString
      | kept => String c kept
      end
  end.

Definition strip (s : string) : string := rstrip (lstrip s).

(** [str.lower()] on code points below 256: the letters A-Z and the
    accented capitals 192-222 (except the sign 215) move up by 32. *)
Definition lower_char (c : ascii) : ascii :=
  let n := N_of_ascii c in
  if ((65 <=? n) && (n <=? 90)
      || (192 <=? n) && (n <=? 222) && negb (n =? 215))%N
  then ascii_of_N (n + 32) else c.

Fixpoint lower (s : string) : string :=
  match s with
  | EmptyString => EmptyString
  | String c rest => String (lower_char c) (lower rest)
  end.

Definition startswith (s prefix : string) : bool := String.prefix prefix s.

(** [_is_valid_query] (lines 74-75). *)
Definition _is_valid_query (query : string) : bool :=
  startswith (lower (strip query)) "select".

(** The database behind [mysql.connector] and [pandas.read_sql]: what
    happens when [query] is run.  An exception is given by its [str]. *)
Inductive DbReply :=
| ConnectFails (text : string)
| ReadFails (text : string)
| Frame (empty : bool) (head10 : string).

(** The calls made to the database, in order. *)
Inductive DbCall :=
| Connect
| ReadSql (query : string)
| Close.

(** [invoke] (lines 35-69), with the calls it makes to the database.
    [conn.close()] is skipped when [read_sql] raises. *)
Definition invoke (db : string → DbReply) (query sessionId : string)
    : AgentItem * list DbCall :=
  if negb (_is_valid_query query) then
    ({| is_task_complete := Some false; require_user_input := Some true;
        content := Some "Only SELECT queries are allowed. Please rephrase your query." |},
     [])
  else
    match db query with
    | ConnectFails text =>
        ({| is_task_complete := Some false; require_user_input := Some true;
            content := Some ("Error: " +:+ text) |},
         [Connect])
    | ReadFails text =>
        ({| is_task_complete := Some false; require_user_input := Some true;
            content := Some ("Error: " +:+ text) |},
         [Connect; ReadSql query])
    | Frame empty head10 =>
        if empty then
          ({| is_task_complete := Some false; require_user_input := Some true;
              content := Some "No results found. Please try a different query." |},
           [Connect; ReadSql query; Close])
        else
          ({| is_task_complete := Some true; require_user_input := Some false;
              content := Some head10 |},
           [Connect; ReadSql query; Close])
    end.

(** [stream] (lines 71-72) yields the one result of [invoke]. *)
Definition stream (db : string → DbReply) (query sessionId : string)
    : list AgentItem * list DbCall :=
  let '(item, calls) := invoke db query sessionId in ([item], calls).

End SQLAgent.

(** ** Concrete requests, agents and senders used in the examples *)

Module Scenario.

Import TaskManager.

(** The import block completed with the three names it lacks. *)
Definition adjusted_imports : list string :=
  ["TextPart"; "TaskStatusUpdateEvent"; "TaskArtifactUpdateEvent"].

Definition thinking : AgentItem :=
  {| content := Some "thinking"; is_task_complete := Some false;
     require_user_input := Some false |}.

Definition done_item : AgentItem :=
  {| content := Some "done"; is_task_complete := Some true;
     require_user_input := Some false |}.

Definition hi : AgentItem :=
  {| content := Some "hi"; is_task_complete := Some true;
     require_user_input := Some false |}.

Definition need_input : AgentItem :=
  {| content := Some "which table?"; is_task_complete := Some false;
     require_user_input := Some true |}.

(** An agent with the content types of [BaseAgent] that answers every
    call with the given result and stream. *)
Definition scripted_agent (answer : Result AgentItem)
    (items : list AgentItem) (failure : option exn) : Agent :=
  {| SUPPORTED_CONTENT_TYPES := ["text"; "text/plain"];
     invoke := λ _ _, answer;
     stream := λ _ _, (items, failure) |}.

Definition sender (verifies delivers : bool) : PushNotificationSenderAuth :=
  {| verify_push_notification_url := λ _, verifies;
     deliver := λ _ _, delivers |}.

Definition manager (a : Agent) (imports : list string) : Self :=
  {| agent := a; notification_sender_auth := sender true true;
     extra_imports := imports |}.

Definition send_request (part : Part) (modes : list string) : Request :=
  {| request_id := "r1";
     params := {| id := "t1"; sessionId := "s1";
                  params_message := {| role := "user"; parts := [part] |};
                  acceptedOutputModes := modes;
                  pushNotification := None;
                  historyLength := None |} |}.

Definition hello : Request := send_request (TextPart "hello") ["text"].

(** A store that already holds task [t1], waiting for input. *)
Definition t1_waiting : Task :=
  {| task_id := "t1"; task_sessionId := "s1";
     status := {| state := INPUT_REQUIRED; message := None |};
     history := []; artifacts := [] |}.

Definition store_with_t1 : TM := set_tasks <["t1" := t1_waiting]> empty_TM.

(** The state in which the background driver of a subscribe request
    starts: the state the handler left. *)
Definition subscribed (self : Self) (request : Request) : TM :=
  snd (on_send_task_subscribe self request empty_TM).

(** The queue of the first subscriber of a task. *)
Definition first_queue (s : TM) (task_id : string) : option (list QueueItem) :=
  qs ← task_sse_subscribers s !! task_id; qs !! 0%nat.

End Scenario.

(** ** What the proofs compare *)

Module Observation.

Import TaskManager.

(** What stays of a state when the log is left out. *)
Definition observable (s : TM) :=
  (tasks s, push_notification_infos s, task_sse_subscribers s,
   background s, push_calls s).


(** The synchronous mapping of an agent response onto the store, for a
    task that is in the store. *)
Definition stored_after_response (old : Task) (agent_response : AgentItem) : Task :=
  let parts := [TextPart (default "" (content agent_response))] in
  if default false (require_user_input agent_response) then
    {| task_id := task_id old; task_sessionId := task_sessionId old;
       status := {| state := INPUT_REQUIRED;
                    message := Some {| role := "agent"; parts := parts |} |};
       history := history old ++ [status old];
       artifacts := artifacts old |}
  else
    {| task_id := task_id old; task_sessionId := task_sessionId old;
       status := {| state := COMPLETED; message := None |};
       history := history old ++ [status old];
       artifacts := artifacts old
                    ++ [{| artifact_parts := parts; index := 0; append := None |}] |}.



End Observation.

(** ** [generic_agent/agent.py]: class [BaseAgent] and the form helper *)

Module BaseAgent.

Definition SUPPORTED_CONTENT_TYPES : list string := ["text"; "text/plain"].

(** [invoke] (lines 41-43) of the base class raises
    [NotImplementedError]; a subclass is meant to override it. *)
Definition invoke (query session_id : string) : Result AgentItem :=
  Raise (Raised "NotImplementedError" "Implement invoke in subclass").

(** [stream] (lines 45-47) of the base class is an [async def] without a
    [yield]: calling it gives a coroutine, not an asynchronous generator.
    Its body, which would raise [NotImplementedError], never runs under
    [async for]: the loop statement itself raises [TypeError], because a
    coroutine has no [__aiter__]. *)
Definition stream (query session_id : string) : list AgentItem * option exn :=
  ([], Some (Raised "TypeError"
               "'async for' requires an object with __aiter__ method, got coroutine")).

(** [process_response] (lines 49-67).  The result dictionary is taken with
    string values; [f"Error: {v}"] is then ["Error: "] followed by [v]. *)
Definition process_response (result : gmap string string) : AgentItem :=
  match result !! "error" with
  | Some err =>
      {| content := Some ("Error: " +:+ err);
         is_task_complete := Some false; require_user_input := Some true |}
  | None =>
      match result !! "output" with
      | Some out =>
          {| content := Some out;
             is_task_complete := Some true; require_user_input := Some false |}
      | None =>
          {| content := Some "I need more input to proceed.";
             is_task_complete := Some false; require_user_input := Some true |}
      end
  end.

(** [create_generic_form] (lines 70-77).  [randint] is the number drawn by
    [random.randint(100000, 999999)].  Only the keys of [fields] are used.
    In the dictionary display the entries of the comprehension come after
    ["form_id"], so they win on that key. *)
Definition create_generic_form {V} (randint : Z) (fields : gmap string V)
    (defaults : option (gmap string string)) : gmap string string :=
  let form_id := "form_" +:+ pretty randint in
  let defaults := default ∅ defaults in
  map_imap (λ field _, Some (default ("<" +:+ field +:+ ">") (defaults !! field)))
    fields
  ∪ {["form_id" := form_id]}.

End BaseAgent.

(** ** [search_agnt/agent.py]: class [SearchAgent] *)

Module SearchAgent.

(** What the methods write: [print] lines and log records, with the format
    strings as in the source. *)
Inductive Out :=
| Print (template : string)
| Log (l : Level) (template : string).

(** A step of [agent_executor.astream_events], by the two classes the
    loop tests for; a message content is taken as a string. *)
Inductive Step :=
| AIMessage (content : string)
| ToolMessage
| OtherStep.

(** The LangChain executor: the result dictionary of [invoke] and of
    [ainvoke], or the exception they raise, and the steps of
    [astream_events], ended normally or by an exception. *)
Record AgentExecutor := {
  executor_invoke : string → string → Result (gmap string string);
  astream_events : string → string → list Step * option exn;
  ainvoke : string → string → Result (gmap string string)
}.

(** [process_response] (lines 96-128). *)
Definition process_response (result : gmap string string) : AgentItem * list Out :=
  let banner :=
    [Log INFO "*******************************INSIDE process_response************************************";
     Log INFO "[RESULT ] : {result}";
     Log INFO "*******************************iiiiiiiiiiiiii************************************"] in
  match result !! "error" with
  | Some err =>
      ({| content := Some ("Error: " +:+ err);
          is_task_complete := Some false; require_user_input := Some true |},
       banner ++ [Log INFO "ERROR.........................."])
  | None =>
      match result !! "output" with
      | Some out =>
          ({| content := Some out;
              is_task_complete := Some true; require_user_input := Some false |},
           banner ++ [Log INFO "OUTPUT.........................."])
      | None =>
          ({| content := Some "We couldn't find an answer. Please rephrase your query.";
              is_task_complete := Some false; require_user_input := Some true |},
           banner ++ [Log INFO "REQUIRE USER.........................."])
      end
  end.

(** [invoke] (lines 56-66).  There is no [try]: an exception of the
    executor leaves the method. *)
Definition invoke (executor : AgentExecutor) (query sessionId : string)
    : Result AgentItem * list Out :=
  let before :=
    [Print "[DEBUG] Invoking with query: {query}, sessionId: {sessionId}";
     Log INFO "*******************************INSIDE INVOKE************************************"] in
  match executor_invoke executor query sessionId with
  | Raise e => (Raise e, before)
  | Ok result =>
      let '(item, out) := process_response result in
      (Ok item,
       before
       ++ [Print "[DEBUG] Agent raw result: {result}";
           Log INFO "*************************RESULT*************************************"]
       ++ out)
  end.

(** What one step of the event stream makes [stream] yield (lines
    80-92): [step.content or "Thinking..."] replaces an empty content. *)
Definition step_item (step : Step) : option AgentItem :=
  match step with
  | AIMessage content =>
      Some {| content := Some (if String.eqb content "" then "Thinking..." else content);
              is_task_complete := Some false; require_user_input := Some false |}
  | ToolMessage =>
      Some {| content := Some "Searching...";
              is_task_complete := Some false; require_user_input := Some false |}
  | OtherStep => None
  end.

(** [stream] (lines 68-94): the items yielded, the exception that ends
    the generator if there is one, and what was written. *)
Definition stream (executor : AgentExecutor) (query sessionId : string)
    : list AgentItem * option exn * list Out :=
  let '(steps, failure) := astream_events executor query sessionId in
  let items := omap step_item steps in
  match failure with
  | Some e => (items, Some e, [])
  | None =>
      match ainvoke executor query sessionId with
      | Raise e => (items, Some e, [])
      | Ok result =>
          let '(item, out) := process_response result in
          (items ++ [item], None, out)
      end
  end.

Definition SUPPORTED_CONTENT_TYPES : list string := ["text"; "text/plain"].

End SearchAgent.

(** ** What the loop of the streaming driver publishes *)

Module Published.





(** The string consists of characters that [str.strip] removes. *)
Fixpoint all_space (s : string) : bool :=
  match s with
  | EmptyString => true
  | String c rest => SQLAgent.isspace c && all_space rest
  end.

End Published.

(** ** Parts of the state that a computation leaves alone *)

Module Frame.

(** Whatever the start state and the outcome, [m] ends with the same
    [part] of the state as it started with. *)
Definition keeps {A B} (part : TM → B) (m : M A) : Prop :=
  ∀ s, part (snd (m s)) = part s.

(** What the synchronous path never touches: the push configurations, the
    subscribers' queues and the scheduled drivers. *)
Definition beside_tasks (s : TM) :=
  (push_notification_infos s, task_sse_subscribers s, background s).

(** What the streaming driver never touches: the push configurations and
    the scheduled drivers. *)
Definition beside_queues (s : TM) :=
  (push_notification_infos s, background s).

End Frame.

(** ** Properties of the task manager *)

Module TaskManagerProofs.

Import TaskManager Scenario Observation.

(** *** Notifications *)

(** A notification never raises, and touches neither the tasks, nor the
    push configurations, nor the queues. *)
Lemma send_task_notification_returns (self : Self) (task : Task) (s : TM) :
  ∃ s', send_task_notification self task s = (Ok tt, s')
        ∧ tasks s' = tasks s
        ∧ push_notification_infos s' = push_notification_infos s
        ∧ task_sse_subscribers s' = task_sse_subscribers s
        ∧ background s' = background s.
Proof.
  unfold send_task_notification, has_push_notification_info,
    get_push_notification_info, send_push_notification.
  run.
  destruct (push_notification_infos s !! task_id task) as [cfg|] eqn:Hcfg.
  - rewrite bool_decide_eq_true_2 by eauto. simpl. rewrite Hcfg.
    destruct (deliver _ _ _); simpl; eauto 10.
  - rewrite bool_decide_eq_false_2 by (intros [? ?]; congruence).
    simpl. eauto 10.
Qed.

Lemma send_task_notification_unconfigured (self : Self) (task : Task) (s : TM) :
  push_notification_infos s !! task_id task = None →
  send_task_notification self task s
  = (Ok tt, set_log (λ l, l ++ [{| level := INFO;
        template := "No push notification info for task {task.id}" |}]) s).
Proof.
  intros Hnone.
  unfold send_task_notification, has_push_notification_info. run.
  rewrite Hnone.
  rewrite bool_decide_eq_false_2 by (intros [? ?]; congruence).
  reflexivity.
Qed.

(** *** Validation *)

Lemma incompatible_when_disjoint (accepted supported : list string) :
  (∀ m, m ∈ accepted → m ∉ supported) →
  are_modalities_compatible accepted supported = false.
Proof.
  intros Hdisj. unfold are_modalities_compatible.
  apply not_true_is_false. intros Hex.
  apply existsb_exists in Hex as (m & Hin & Hm).
  apply bool_decide_eq_true_1 in Hm.
  apply (Hdisj m); [by apply list_elem_of_In | done].
Qed.

Lemma validate_incompatible (self : Self) (request : Request) (s : TM) :
  are_modalities_compatible (acceptedOutputModes (params request))
    (SUPPORTED_CONTENT_TYPES (agent self)) = false →
  _validate_request self request s
  = (Ok (Some {| response_id := request_id request; result := None;
                 error := Some (InvalidParamsError "Incompatible output modes") |}),
     set_log (λ l, l ++ [{| level := WARNING;
        template := "Unsupported output mode: {task_send_params.acceptedOutputModes}" |}]) s).
Proof.
  intros Hinc. unfold _validate_request. rewrite Hinc. reflexivity.
Qed.

(** C5: a send or subscribe request whose accepted output modes share no
    element with the agent's supported content types is answered with an
    [InvalidParamsError], and the tasks, the push configurations, the
    queues and the background drivers are exactly what they were, whatever
    the store held before (in particular when the task id is already
    there). *)
Theorem incompatible_modes_rejected_without_mutation
    (self : Self) (request : Request) (s : TM) :
  (∀ m, m ∈ acceptedOutputModes (params request) →
        m ∉ SUPPORTED_CONTENT_TYPES (agent self)) →
  (∃ s', on_send_task self request s
         = (Ok {| response_id := request_id request; result := None;
                  error := Some (InvalidParamsError "Incompatible output modes") |},
            s')
         ∧ observable s' = observable s)
  ∧ (∃ s', on_send_task_subscribe self request s
           = (Ok (ErrorResponse
                    {| response_id := request_id request; result := None;
                       error := Some (InvalidParamsError "Incompatible output modes") |}),
              s')
           ∧ observable s' = observable s).
Proof.
  intros Hdisj. apply incompatible_when_disjoint in Hdisj.
  split.
  - unfold on_send_task. run. rewrite (validate_incompatible _ _ _ Hdisj).
    simpl. eauto.
  - unfold on_send_task_subscribe. run.
    rewrite (validate_incompatible _ _ _ Hdisj). simpl. eauto.
Qed.

Lemma incompatible_modes_rejected_witness :
  ∃ s', on_send_task (manager (scripted_agent (Ok hi) [] None) adjusted_imports)
          (send_request (TextPart "hello") ["image/png"]) store_with_t1
        = (Ok {| response_id := "r1"; result := None;
                 error := Some (InvalidParamsError "Incompatible output modes") |},
           s')
        ∧ tasks s' = tasks store_with_t1.
Proof.
  destruct (incompatible_modes_rejected_without_mutation
              (manager (scripted_agent (Ok hi) [] None) adjusted_imports)
              (send_request (TextPart "hello") ["image/png"]) store_with_t1)
    as [(s' & Hrun & Hobs) _].
  - intros m Hm Hsup. simpl in Hm, Hsup.
    apply list_elem_of_singleton in Hm. subst m.
    by repeat (apply elem_of_cons in Hsup as [? | Hsup]; [done |]);
       apply elem_of_nil in Hsup.
  - exists s'. split; [exact Hrun |]. unfold observable in Hobs. congruence.
Defined.

(** *** The store operations and the helpers of the handlers *)

Lemma update_store_known (task_id : string) (st : TaskStatus)
    (arts : option (list Artifact)) (s : TM) (old : Task) :
  tasks s !! task_id = Some old →
  update_store task_id st arts s
  = (Ok {| task_id := Types.task_id old; task_sessionId := task_sessionId old;
           status := st; history := history old ++ [status old];
           artifacts := artifacts old ++ default [] arts |},
     set_tasks <[task_id :=
       {| task_id := Types.task_id old; task_sessionId := task_sessionId old;
          status := st; history := history old ++ [status old];
          artifacts := artifacts old ++ default [] arts |}]> s).
Proof. intros Hold. unfold update_store. run. by rewrite Hold. Qed.

Lemma update_store_unknown (task_id : string) (st : TaskStatus)
    (arts : option (list Artifact)) (s : TM) :
  tasks s !! task_id = None →
  update_store task_id st arts s = (Raise (NotFoundError task_id), s).
Proof. intros Hnone. unfold update_store. run. by rewrite Hnone. Qed.

(** After [upsert_task] the task is in the store, with the artifacts it
    had before (none for a new task). *)
Lemma upsert_task_run (p : TaskSendParams) (s : TM) :
  ∃ t s', upsert_task p s = (Ok t, s')
          ∧ tasks s' !! id p = Some t
          ∧ artifacts t = default [] (artifacts <$> tasks s !! id p)
          ∧ push_notification_infos s' = push_notification_infos s.
Proof.
  unfold upsert_task. run.
  destruct (tasks s !! id p) as [t|] eqn:Ht; simpl.
  - exists t, s. by rewrite Ht.
  - eexists _, _. split; [reflexivity |]. simpl.
    by rewrite lookup_insert_eq.
Qed.

Lemma get_user_query_pure (self : Self) (p : TaskSendParams) (s s0 : TM) :
  _get_user_query self p s = (fst (_get_user_query self p s0), s).
Proof.
  unfold _get_user_query. run.
  destruct (parts (params_message p)) as [|part rest]; [done |].
  destruct (bound (extra_imports self) "TextPart"); [|done].
  by destruct part.
Qed.

Lemma validate_passes_pure (self : Self) (request : Request) (s s0 : TM) :
  fst (_validate_request self request s0) = Ok None →
  _validate_request self request s = (Ok None, s).
Proof.
  unfold _validate_request. run.
  destruct (negb _); [done |].
  destruct (pushNotification (params request)) as [cfg|]; [|done].
  by destruct (String.eqb (url cfg) "").
Qed.

Lemma process_agent_response_run (self : Self) (request : Request)
    (agent_response : AgentItem) (s : TM) (old : Task) :
  tasks s !! id (params request) = Some old →
  ∃ s', _process_agent_response self request agent_response s
        = (Ok {| response_id := request_id request;
                 result := Some (append_task_history
                                   (stored_after_response old agent_response)
                                   (historyLength (params request)));
                 error := None |}, s')
        ∧ tasks s' = <[id (params request) :=
                         stored_after_response old agent_response]> (tasks s)
        ∧ push_notification_infos s' = push_notification_infos s
        ∧ task_sse_subscribers s' = task_sse_subscribers s.
Proof.
  intros Hold. unfold _process_agent_response, stored_after_response.
  destruct (default false (require_user_input agent_response)).
  - unfold mbind, M_bind, bind.
    rewrite (update_store_known _ _ _ _ _ Hold). simpl.
    rewrite app_nil_r.
    match goal with
    | |- context [send_task_notification ?a ?b ?c] =>
        destruct (send_task_notification_returns a b c)
          as (s' & -> & Ht & Hp & Hq & _)
    end.
    unfold ret. exists s'. by rewrite Ht, Hp, Hq.
  - unfold mbind, M_bind, bind.
    rewrite (update_store_known _ _ _ _ _ Hold). simpl.
    match goal with
    | |- context [send_task_notification ?a ?b ?c] =>
        destruct (send_task_notification_returns a b c)
          as (s' & -> & Ht & Hp & Hq & _)
    end.
    unfold ret. exists s'. by rewrite Ht, Hp, Hq.
Qed.

(** C9: in the synchronous path the outcome follows [require_user_input]
    alone.  For a task that is in the store, a response asking for input
    is stored as INPUT_REQUIRED with the content as the message and the
    artifacts as they were; any other response, whatever its
    [is_task_complete], is stored as COMPLETED with one artifact built
    from the content appended.  Changing [is_task_complete] changes
    nothing. *)
Theorem process_agent_response_follows_require_user_input
    (self : Self) (request : Request) (agent_response : AgentItem)
    (s : TM) (old : Task) :
  tasks s !! id (params request) = Some old →
  let parts := [TextPart (default "" (content agent_response))] in
  let stored :=
    if default false (require_user_input agent_response) then
      {| task_id := task_id old; task_sessionId := task_sessionId old;
         status := {| state := INPUT_REQUIRED;
                      message := Some {| role := "agent"; parts := parts |} |};
         history := history old ++ [status old];
         artifacts := artifacts old |}
    else
      {| task_id := task_id old; task_sessionId := task_sessionId old;
         status := {| state := COMPLETED; message := None |};
         history := history old ++ [status old];
         artifacts := artifacts old
                      ++ [{| artifact_parts := parts; index := 0;
                             append := None |}] |} in
  (∃ r s', _process_agent_response self request agent_response s = (Ok r, s')
           ∧ tasks s' !! id (params request) = Some stored)
  ∧ (∀ flag : option bool,
       _process_agent_response self request
         {| content := content agent_response; is_task_complete := flag;
            require_user_input := require_user_input agent_response |} s
       = _process_agent_response self request agent_response s).
Proof.
  intros Hold parts stored. split.
  - destruct (process_agent_response_run self request agent_response s old Hold)
      as (s' & Hrun & Ht & _).
    eexists _, s'. split; [exact Hrun |].
    rewrite Ht, lookup_insert_eq. reflexivity.
  - intros flag. reflexivity.
Qed.

Lemma process_agent_response_witness :
  ∃ r s', _process_agent_response (manager (scripted_agent (Ok hi) [] None) [])
            hello
            {| content := Some "partial"; is_task_complete := Some false;
               require_user_input := Some false |} store_with_t1 = (Ok r, s')
          ∧ (state ∘ status <$> tasks s' !! "t1") = Some COMPLETED
          ∧ (artifacts <$> tasks s' !! "t1")
            = Some [{| artifact_parts := [TextPart "partial"]; index := 0;
                       append := None |}].
Proof.
  destruct (process_agent_response_follows_require_user_input
              (manager (scripted_agent (Ok hi) [] None) []) hello
              {| content := Some "partial"; is_task_complete := Some false;
                 require_user_input := Some false |} store_with_t1 t1_waiting)
    as [(r & s' & Hrun & Hstored) _].
  - reflexivity.
  - exists r, s'. split; [exact Hrun |].
    simpl in Hstored. rewrite Hstored. split; reflexivity.
Defined.

(** *** The synchronous send path *)

(** Up to the call of the agent: a validated request whose query can be
    extracted leaves the task in the store in state WORKING, with the
    artifacts it had before. *)
Lemma on_send_task_run (self : Self) (request : Request) (s : TM)
    (query : string) :
  fst (_validate_request self request s) = Ok None →
  fst (_get_user_query self (params request) s) = Ok query →
  ∃ working s1,
    tasks s1 !! id (params request) = Some working
    ∧ status working = {| state := WORKING; message := None |}
    ∧ artifacts working
      = default [] (artifacts <$> tasks s !! id (params request))
    ∧ on_send_task self request s
      = match invoke (agent self) query (sessionId (params request)) with
        | Ok r => _process_agent_response self request r s1
        | Raise e =>
            if is_exception e then
              (Raise (ValueError_f "Error invoking agent: " e),
               set_log (λ l, l ++ [{| level := ERROR;
                  template := "Error invoking agent: {e}" |}]) s1)
            else (Raise e, s1)
        end.
Proof.
  intros Hval Hquery. unfold on_send_task.
  unfold mbind, M_bind, bind at 1.
  rewrite (validate_passes_pure self request s s Hval).
  unfold bind at 1.
  destruct (upsert_task_run (params request) s) as (t & s0 & -> & Ht & Harts & _).
  unfold bind at 1. rewrite (update_store_known _ _ _ _ _ Ht). simpl.
  unfold bind at 1.
  match goal with
  | |- context [send_task_notification ?a ?b ?c] =>
      destruct (send_task_notification_returns a b c)
        as (s1 & -> & Htasks & _)
  end.
  unfold bind at 1.
  rewrite (get_user_query_pure self (params request) s1 s), Hquery.
  eexists _, s1. split; [| split; [| split]].
  - rewrite Htasks. simpl. apply lookup_insert_eq.
  - reflexivity.
  - simpl. by rewrite app_nil_r.
  - unfold bind, try_except, logger, modify, raise, ret.
    destruct (invoke _ _ _) as [r | e]; [done |].
    by destruct (is_exception e).
Qed.

(** C4 on the code: the send of "hello" with output mode "text" for a new
    task, to an agent whose [invoke] returns content "hi" with
    [is_task_complete] true and [require_user_input] false.  With the
    import block as written, [_get_user_query] evaluates the name
    [TextPart], which the module never imports: [on_send_task] raises
    [NameError], the agent is not called, and the task stays in the store
    in state WORKING without an artifact.  With [TextPart] imported the
    same send returns the task COMPLETED with the single artifact whose
    parts are the text part "hi". *)
Theorem send_scenario_on_the_code :
  (let run :=
     on_send_task (manager (scripted_agent (Ok hi) [] None) []) hello empty_TM in
   fst run = Raise (NameError "TextPart")
   ∧ tasks (snd run) !! "t1"
     = Some {| task_id := "t1"; task_sessionId := "s1";
               status := {| state := WORKING; message := None |};
               history := [{| state := SUBMITTED; message := None |}];
               artifacts := [] |})
  ∧ (let run :=
       on_send_task (manager (scripted_agent (Ok hi) [] None) adjusted_imports)
         hello empty_TM in
     fst run
     = Ok {| response_id := "r1";
             result :=
               Some {| task_id := "t1"; task_sessionId := "s1";
                       status := {| state := COMPLETED; message := None |};
                       history := [];
                       artifacts := [{| artifact_parts := [TextPart "hi"];
                                        index := 0; append := None |}] |};
             error := None |}).
Proof. vm_compute. repeat split. Qed.

(** C2 on the code: the same send to an agent whose [invoke] raises.  With
    [TextPart] imported, the handler of [on_send_task] logs the error and
    raises [ValueError] with the text of the exception: the method returns
    no response, so no [InternalError] response either, and the task stays
    in the store in state WORKING.  With the import block as written the
    agent is not reached: [NameError] leaves the method. *)
Theorem agent_failure_on_the_code :
  let failing := scripted_agent (Raise (Raised "RuntimeError" "boom")) [] None in
  (let run := on_send_task (manager failing adjusted_imports) hello empty_TM in
   fst run
   = Raise (ValueError_f "Error invoking agent: " (Raised "RuntimeError" "boom"))
   ∧ (¬ ∃ response, fst run = Ok response)
   ∧ (status <$> tasks (snd run) !! "t1")
     = Some {| state := WORKING; message := None |}
   ∧ last (log (snd run))
     = Some {| level := ERROR; template := "Error invoking agent: {e}" |})
  ∧ fst (on_send_task (manager failing []) hello empty_TM)
    = Raise (NameError "TextPart").
Proof.
  vm_compute. repeat split.
  intros [response Hresponse]. discriminate.
Qed.

(** *** Push-notification configuration *)

(** C7: when the URL of a push configuration does not verify,
    [set_push_notification_info] returns [False] and leaves the state as
    it was; whenever it does change the stored configurations, the URL had
    verified; and for a task without a stored configuration
    [send_task_notification] returns without calling the sender and
    without touching the store. *)
Theorem push_config_only_after_verification :
  (∀ (self : Self) (task_id : string) (config : PushNotificationConfig) (s : TM),
     verify_push_notification_url (notification_sender_auth self) (url config)
     = false →
     set_push_notification_info self task_id config s = (Ok false, s))
  ∧ (∀ (self : Self) (task_id : string) (config : PushNotificationConfig) (s : TM),
       push_notification_infos (snd (set_push_notification_info self task_id config s))
       ≠ push_notification_infos s →
       verify_push_notification_url (notification_sender_auth self) (url config)
       = true)
  ∧ (∀ (self : Self) (task : Task) (s : TM),
       push_notification_infos s !! task_id task = None →
       ∃ s', send_task_notification self task s = (Ok tt, s')
             ∧ observable s' = observable s).
Proof.
  split; [| split].
  - intros self task_id config s Hverify.
    unfold set_push_notification_info. by rewrite Hverify.
  - intros self task_id config s Hchanged.
    unfold set_push_notification_info in Hchanged.
    destruct (verify_push_notification_url _ _); [done |].
    by destruct Hchanged.
  - intros self task s Hnone.
    rewrite (send_task_notification_unconfigured self task s Hnone).
    by eexists.
Qed.

Lemma push_config_only_after_verification_witness :
  set_push_notification_info
    {| agent := scripted_agent (Ok hi) [] None;
       notification_sender_auth := sender false true;
       extra_imports := adjusted_imports |}
    "t1" {| url := "http://unverifiable.example/hook" |} store_with_t1
  = (Ok false, store_with_t1)
  ∧ ∃ s', send_task_notification
            {| agent := scripted_agent (Ok hi) [] None;
               notification_sender_auth := sender false true;
               extra_imports := adjusted_imports |}
            t1_waiting store_with_t1 = (Ok tt, s')
          ∧ push_calls s' = [].
Proof.
  destruct push_config_only_after_verification as (Hset & _ & Hsend).
  split.
  - apply Hset. reflexivity.
  - destruct (Hsend {| agent := scripted_agent (Ok hi) [] None;
                       notification_sender_auth := sender false true;
                       extra_imports := adjusted_imports |}
                t1_waiting store_with_t1) as (s' & Hrun & Hobs);
      [reflexivity |].
    exists s'. split; [exact Hrun |].
    unfold observable in Hobs. by injection Hobs.
Defined.

(** *** Delivery outcomes do not show *)


























(** *** The streaming driver *)

(** Inside the [try] nothing that derives from [Exception] escapes: once
    the query has been extracted the driver returns normally, or ends with
    an exception that [except Exception] does not catch. *)
Lemma driver_catches_inside_try (self : Self) (request : Request) (s : TM)
    (query : string) :
  fst (_get_user_query self (params request) s) = Ok query →
  fst (_run_streaming_task self request s) = Ok tt
  ∨ ∃ e, fst (_run_streaming_task self request s) = Raise e
         ∧ is_exception e = false.
Proof.
  intros Hquery.
  destruct (_run_streaming_task self request s) as [r s'] eqn:Hrun. simpl.
  unfold _run_streaming_task in Hrun.
  unfold mbind, M_bind, bind at 1 in Hrun.
  rewrite (get_user_query_pure self (params request) s s), Hquery in Hrun.
  unfold try_except in Hrun.
  match type of Hrun with context [let '(a, b) := ?body ?st in _] =>
    destruct (body st) as [[[]|e] s1] end.
  - injection Hrun as <- _. by left.
  - destruct (is_exception e) eqn:He.
    + left. unfold enqueue_events_for_sse in Hrun. run.
      destruct (task_sse_subscribers s1 !! id (params request));
        by injection Hrun as <- _.
    + injection Hrun as <- _. right. eauto.
Qed.

(** An exception of the agent's stream that derives from [Exception] is
    published on every queue of the task. *)
Lemma driver_publishes_stream_failure (self : Self) (request : Request)
    (s : TM) (query : string) (e : exn) (qs : list (list QueueItem)) :
  fst (_get_user_query self (params request) s) = Ok query →
  stream (agent self) query (sessionId (params request)) = ([], Some e) →
  is_exception e = true →
  task_sse_subscribers s !! id (params request) = Some qs →
  task_sse_subscribers (snd (_run_streaming_task self request s))
    !! id (params request)
  = Some ((λ q, q ++ [ErrorItem (InternalError_f
                        "An error occurred while streaming the response: " e)])
          <$> qs).
Proof.
  intros Hquery Hstream He Hqs. unfold _run_streaming_task.
  unfold mbind, M_bind, bind at 1.
  rewrite (get_user_query_pure self (params request) s s), Hquery.
  rewrite Hstream. unfold enqueue_events_for_sse. run.
  rewrite He. simpl. rewrite Hqs. simpl. apply lookup_insert_eq.
Qed.

(** The turn of the loop for an item that is not a completion, while no
    earlier item was one: the local [artifact] is read before anything was
    assigned to it, so the turn raises and puts nothing on the queues. *)
Lemma stream_item_before_completion_raises (self : Self)
    (p : TaskSendParams) (item : AgentItem) (s : TM) :
  default false (is_task_complete item)
  && negb (default false (require_user_input item)) = false →
  ∃ e s', stream_item self p item None s = (Raise e, s')
          ∧ (e = UnboundLocalError "artifact" ∨ e = NotFoundError (id p))
          ∧ task_sse_subscribers s' = task_sse_subscribers s.
Proof.
  intros Hflags. unfold stream_item.
  destruct (default false (is_task_complete item)),
    (default false (require_user_input item));
    simpl in Hflags; try discriminate; simpl.
  all: unfold mbind, M_bind; unfold bind at 1.
  all: destruct (tasks s !! id p) as [old|] eqn:Hold;
    [ rewrite (update_store_known _ _ _ _ _ Hold); unfold bind at 1;
      match goal with
      | |- context [send_task_notification ?a ?b ?c] =>
          destruct (send_task_notification_returns a b c)
            as (s' & -> & _ & _ & Hq & _)
      end;
      simpl; eauto 6
    | rewrite (update_store_unknown _ _ _ _ Hold); simpl; eauto 6 ].
Qed.

(** C1 on the code: for the stream "thinking" then "done", with the three
    missing names imported, the driver stores the first status, fails on
    the unassigned local [artifact], and the subscriber's queue receives
    the error item alone: no status update and no artifact update.  With
    the imports as written, the driver raises [NameError] before the loop
    and the queue stays empty. *)
Theorem streaming_scenario_yields_error_item_only :
  (let self := manager (scripted_agent (Ok hi) [thinking; done_item] None)
                 adjusted_imports in
   let end_state := snd (_run_streaming_task self hello (subscribed self hello)) in
   fst (_run_streaming_task self hello (subscribed self hello)) = Ok tt
   ∧ first_queue end_state "t1"
     = Some [ErrorItem (InternalError_f
                          "An error occurred while streaming the response: "
                          (UnboundLocalError "artifact"))]
   ∧ (status <$> tasks end_state !! "t1")
     = Some {| state := WORKING;
               message := Some {| role := "agent";
                                  parts := [TextPart "thinking"] |} |})
  ∧ (let self := manager (scripted_agent (Ok hi) [thinking; done_item] None) [] in
     let end_state := snd (_run_streaming_task self hello (subscribed self hello)) in
     fst (_run_streaming_task self hello (subscribed self hello))
     = Raise (NameError "TextPart")
     ∧ first_queue end_state "t1" = Some []).
Proof. vm_compute. repeat split. Qed.

(** C3 on the code, with the three missing names imported.  A stream of
    one in-progress item, or of one item asking for input, puts only the
    error item on the queue: no WORKING and no INPUT_REQUIRED status
    update.  A completion does give the artifact update (index 0,
    [append] false) and the final COMPLETED status; an in-progress item
    that follows it gives the same artifact update again before its
    WORKING status. *)
Theorem stream_items_outcomes_on_the_code :
  let run items :=
    let self := manager (scripted_agent (Ok hi) items None) adjusted_imports in
    first_queue (snd (_run_streaming_task self hello (subscribed self hello)))
      "t1" in
  let failed :=
    ErrorItem (InternalError_f "An error occurred while streaming the response: "
                 (UnboundLocalError "artifact")) in
  let artifact_done :=
    TaskArtifactUpdateEvent "t1"
      {| artifact_parts := [TextPart "done"]; index := 0; append := Some false |} in
  run [thinking] = Some [failed]
  ∧ run [need_input] = Some [failed]
  ∧ run [done_item]
    = Some [artifact_done;
            TaskStatusUpdateEvent "t1"
              {| state := COMPLETED; message := None |} true]
  ∧ run [done_item; thinking]
    = Some [artifact_done;
            TaskStatusUpdateEvent "t1"
              {| state := COMPLETED; message := None |} true;
            artifact_done;
            TaskStatusUpdateEvent "t1"
              {| state := WORKING;
                 message := Some {| role := "agent";
                                    parts := [TextPart "thinking"] |} |} false].
Proof. vm_compute. repeat split. Qed.

(** C6 on the code: for a request whose first message part is not a text
    part, [_get_user_query] raises before the [try] is entered; the
    exception leaves the driver and nothing is put on the subscriber's
    queue. *)
Theorem driver_exception_before_try_escapes :
  let self := manager (scripted_agent (Ok hi) [done_item] None) adjusted_imports in
  let request := send_request (OtherPart "file") ["text"] in
  fst (_run_streaming_task self request (subscribed self request))
  = Raise (ValueError "Only text parts are supported")
  ∧ first_queue (snd (_run_streaming_task self request (subscribed self request)))
      "t1" = Some [].
Proof. vm_compute. split; reflexivity. Qed.

End TaskManagerProofs.

(** ** Properties of the SQL agent *)

Module SQLAgentProofs.

Import SQLAgent.

Example strip_example : strip "  	SeLect 1 " = "SeLect 1".
Proof. reflexivity. Qed.

Example valid_example : _is_valid_query "  	SeLect * FROM t " = true.
Proof. reflexivity. Qed.

Example invalid_example : _is_valid_query "DROP TABLE users; select 1" = false.
Proof. reflexivity. Qed.

Lemma invoke_calls_when_valid (db : string → DbReply) (query sessionId : string) :
  _is_valid_query query = true →
  ∃ rest, snd (invoke db query sessionId) = Connect :: rest.
Proof.
  intros Hvalid. unfold invoke. rewrite Hvalid. simpl.
  destruct (db query) as [text | text | [] head10]; simpl; eauto.
Qed.

(** C10: a query that, stripped and lowercased, does not start with
    "select" is answered with [is_task_complete] false,
    [require_user_input] true and the rephrase message, and no call is
    made to the database; whenever [invoke] makes a call to the database,
    the stripped and lowercased query starts with "select". *)
Theorem non_select_query_never_reaches_database
    (db : string → DbReply) (query sessionId : string) :
  (startswith (lower (strip query)) "select" = false →
   invoke db query sessionId
   = ({| content := Some "Only SELECT queries are allowed. Please rephrase your query.";
         is_task_complete := Some false;
         require_user_input := Some true |}, []))
  ∧ (snd (invoke db query sessionId) ≠ [] →
     startswith (lower (strip query)) "select" = true).
Proof.
  fold (_is_valid_query query). unfold invoke.
  destruct (_is_valid_query query); simpl; split; try done.
Qed.

Lemma non_select_query_witness :
  invoke (λ _, Frame false "rows") "  Drop TABLE users; select 1" "s1"
  = ({| content := Some "Only SELECT queries are allowed. Please rephrase your query.";
        is_task_complete := Some false;
        require_user_input := Some true |}, []).
Proof.
  apply (non_select_query_never_reaches_database
           (λ _, Frame false "rows") "  Drop TABLE users; select 1" "s1").
  reflexivity.
Defined.

End SQLAgentProofs.

(** ** More on the SQL agent *)

Module SQLAgentMore.

Import SQLAgent Published.

Lemma append_nil (s : string) : "" +:+ s = s.
Proof. reflexivity. Qed.

Lemma append_cons (c : ascii) (a b : string) :
  String c a +:+ b = String c (a +:+ b).
Proof. reflexivity. Qed.

Lemma append_assoc (a b c : string) : (a +:+ b) +:+ c = a +:+ (b +:+ c).
Proof.
  induction a as [|x a IH]; [reflexivity |].
  rewrite !append_cons. by rewrite IH.
Qed.

Lemma isspace_lower_char (c : ascii) : isspace c = true → lower_char c = c.
Proof.
  destruct c as [[] [] [] [] [] [] [] []]; vm_compute; congruence.
Qed.

Lemma rstrip_cons_keep (c : ascii) (s : string) :
  isspace c = false → rstrip (String c s) = String c (rstrip s).
Proof. intros Hc. simpl. rewrite Hc. by destruct (rstrip s). Qed.

Lemma lstrip_all_space (ws rest : string) :
  all_space ws = true → lstrip (ws +:+ rest) = lstrip rest.
Proof.
  induction ws as [|c ws IH]; [done |].
  simpl all_space. intros [Hc Hws]%andb_true_iff.
  rewrite append_cons. simpl lstrip. rewrite Hc. auto.
Qed.

Lemma lstrip_split (q : string) :
  ∃ ws, q = ws +:+ lstrip q ∧ all_space ws = true.
Proof.
  induction q as [|c q (ws & Hq & Hws)]; simpl.
  - by exists "".
  - destruct (isspace c) eqn:Hc.
    + exists (String c ws). rewrite append_cons.
      split; [by rewrite <- Hq | simpl; by rewrite Hc].
    + by exists "".
Qed.

Lemma rstrip_split (s : string) : ∃ tl, s = rstrip s +:+ tl.
Proof.
  induction s as [|c s (tl & Hs)]; simpl.
  - by exists "".
  - destruct (rstrip s) as [|k kept] eqn:Hr.
    + destruct (isspace c).
      * by exists (String c s).
      * exists tl. rewrite append_cons. by rewrite append_nil in *; subst.
    + exists tl. rewrite append_cons. by rewrite <- Hs.
Qed.

Lemma lower_app (a b : string) : lower (a +:+ b) = lower a +:+ lower b.
Proof.
  induction a as [|c a IH]; [done |].
  rewrite append_cons. simpl. by rewrite append_cons, IH.
Qed.

(** A string whose lowercase form is "select": six characters, none of
    which [strip] would remove. *)
Lemma lower_select_inv (p : string) :
  lower p = "select" →
  ∃ c1 c2 c3 c4 c5 c6,
    p = String c1 (String c2 (String c3 (String c4 (String c5 (String c6 "")))))
    ∧ Forall (λ c, isspace c = false) [c1; c2; c3; c4; c5; c6].
Proof.
  intros Hp.
  assert (∀ c l, lower_char c = l → isspace l = false → isspace c = false)
    as Hns.
  { intros c l Hl Hsp. destruct (isspace c) eqn:Hc; [| done].
    rewrite (isspace_lower_char c Hc) in Hl. congruence. }
  destruct p as [|c1 [|c2 [|c3 [|c4 [|c5 [|c6 [|c7 p]]]]]]];
    simpl in Hp; try discriminate.
  exists c1, c2, c3, c4, c5, c6. split; [done |].
  injection Hp as H1 H2 H3 H4 H5 H6.
  repeat constructor; eapply Hns; eauto.
Qed.

Lemma prefix_cons_iff (a b : ascii) (s t : string) :
  String.prefix (String a s) (String b t) = true
  ↔ a = b ∧ String.prefix s t = true.
Proof.
  change (String.prefix (String a s) (String b t))
    with (if ascii_dec a b then String.prefix s t else false).
  destruct (ascii_dec a b) as [Heq | Hne].
  - split; [intros H; by split | by intros [_ H]].
  - split; [discriminate | by intros [Heq _]].
Qed.

Lemma prefix_select_split (x : string) :
  String.prefix "select" (lower x) = true →
  ∃ p rest, x = p +:+ rest ∧ lower p = "select".
Proof.
  intros Hx.
  destruct x as [|c1 x]; [discriminate |].
  simpl lower in Hx. apply prefix_cons_iff in Hx; destruct Hx as [H1 Hx].
  destruct x as [|c2 x]; [discriminate |].
  simpl lower in Hx. apply prefix_cons_iff in Hx; destruct Hx as [H2 Hx].
  destruct x as [|c3 x]; [discriminate |].
  simpl lower in Hx. apply prefix_cons_iff in Hx; destruct Hx as [H3 Hx].
  destruct x as [|c4 x]; [discriminate |].
  simpl lower in Hx. apply prefix_cons_iff in Hx; destruct Hx as [H4 Hx].
  destruct x as [|c5 x]; [discriminate |].
  simpl lower in Hx. apply prefix_cons_iff in Hx; destruct Hx as [H5 Hx].
  destruct x as [|c6 x]; [discriminate |].
  simpl lower in Hx. apply prefix_cons_iff in Hx; destruct Hx as [H6 Hx].
  exists (String c1 (String c2 (String c3 (String c4 (String c5 (String c6 "")))))),
    x.
  split; [reflexivity |]. simpl. congruence.
Qed.

Lemma prefix_app (p rest : string) : String.prefix p (p +:+ rest) = true.
Proof.
  induction p as [|c p IH]; [by destruct rest |].
  rewrite append_cons. by apply prefix_cons_iff.
Qed.

(** X1: a query is accepted exactly when, after leading blanks, it begins
    with the six letters of "select" in any mix of cases; what follows
    them is not looked at. *)
Theorem valid_query_iff_select_prefix (query : string) :
  _is_valid_query query = true ↔
  ∃ ws p rest, query = ws +:+ p +:+ rest
               ∧ all_space ws = true ∧ lower p = "select".
Proof.
  unfold _is_valid_query, startswith, strip. split.
  - intros Hvalid.
    apply prefix_select_split in Hvalid as (p & r & Hstrip & Hp).
    destruct (lstrip_split query) as (ws & Hq & Hws).
    destruct (rstrip_split (lstrip query)) as (tl & Htl).
    exists ws, p, (r +:+ tl). split; [| done].
    rewrite Hq at 1. f_equal. rewrite Htl at 1. rewrite Hstrip.
    apply append_assoc.
  - intros (ws & p & rest & -> & Hws & Hp).
    rewrite (lstrip_all_space _ _ Hws).
    destruct (lower_select_inv p Hp)
      as (c1 & c2 & c3 & c4 & c5 & c6 & -> & Hns).
    repeat (apply Forall_cons in Hns as [? Hns]).
    simpl lstrip. rewrite H.
    rewrite rstrip_cons_keep by done.
    repeat (rewrite append_cons, rstrip_cons_keep by done).
    rewrite append_nil.
    change (String c1 (String c2 (String c3 (String c4 (String c5
              (String c6 (rstrip rest)))))))
      with (String c1 (String c2 (String c3 (String c4 (String c5
              (String c6 ""))))) +:+ rstrip rest).
    rewrite lower_app, Hp. apply prefix_app.
Qed.

(** X2: [invoke] reports completion only for an accepted query whose read
    gave a frame that is not empty, and then the content is the rendered
    head of the frame; in every case exactly one of the two flags is
    set. *)
Theorem invoke_completion_iff_rows
    (db : string → DbReply) (query sessionId : string) :
  let item := fst (invoke db query sessionId) in
  (is_task_complete item = Some true ↔
   _is_valid_query query = true ∧ ∃ head10, db query = Frame false head10)
  ∧ (∀ head10, _is_valid_query query = true → db query = Frame false head10 →
               content item = Some head10)
  ∧ require_user_input item = negb <$> is_task_complete item.
Proof.
  intros item. subst item. unfold invoke.
  destruct (_is_valid_query query); simpl.
  - destruct (db query) as [text | text | [] head10] eqn:Hdb; simpl.
    all: split; [split; [(by intros [=]) || eauto | intros [_ [h [=]]]; done] |].
    all: split; [intros h _ [=]; by subst | reflexivity].
  - split; [split; [intros [=] | intros [[=] _]] |].
    split; [intros h [=] | reflexivity].
Qed.

(** X3: the database sees the query exactly as it was given (neither
    stripped nor lowercased); the connection is closed exactly when the
    read returned a frame, so a read that raises leaves it open. *)
Theorem invoke_database_calls
    (db : string → DbReply) (query sessionId : string) :
  let calls := snd (invoke db query sessionId) in
  (∀ q, ReadSql q ∈ calls → q = query)
  ∧ (Close ∈ calls ↔
     _is_valid_query query = true ∧ ∃ empty head10, db query = Frame empty head10)
  ∧ (∀ text, _is_valid_query query = true → db query = ReadFails text →
             calls = [Connect; ReadSql query]).
Proof.
  intros calls. subst calls. unfold invoke.
  destruct (_is_valid_query query); simpl.
  - destruct (db query) as [text | text | [] head10] eqn:Hdb; simpl.
    all: split;
      [intros q Hq;
       repeat (apply elem_of_cons in Hq as [Hq | Hq]; [congruence |]);
       by apply elem_of_nil in Hq |].
    all: split; [| intros t _ [=]; done].
    all: split;
      [intros Hc; try (split; [done | eauto]);
       repeat (apply elem_of_cons in Hc as [Hc | Hc]; [discriminate |]);
       by apply elem_of_nil in Hc
      | intros [_ (e & h & [=])]; subst;
        rewrite !elem_of_cons; auto].
  - split; [intros q Hq; by apply elem_of_nil in Hq |].
    split; [split; [intros Hc; by apply elem_of_nil in Hc | intros [[=] _]] |].
    intros t [=].
Qed.

Lemma valid_query_witness :
  _is_valid_query "  SeLeCt 1; DROP TABLE users" = true.
Proof.
  apply valid_query_iff_select_prefix.
  exists "  ", "SeLeCt", " 1; DROP TABLE users".
  repeat split; reflexivity.
Defined.

Lemma invoke_completion_witness :
  content (fst (invoke (λ _, Frame false "1 row") "select 1" "s1"))
  = Some "1 row".
Proof.
  apply (invoke_completion_iff_rows (λ _, Frame false "1 row") "select 1" "s1");
    reflexivity.
Defined.

Lemma invoke_database_calls_witness :
  snd (invoke (λ _, ReadFails "no such table") " select * from t " "s1")
  = [Connect; ReadSql " select * from t "].
Proof.
  destruct (invoke_database_calls (λ _, ReadFails "no such table")
              " select * from t " "s1") as (_ & _ & Hfails).
  apply (Hfails "no such table"); reflexivity.
Defined.

End SQLAgentMore.

(** ** The base agent, the form helper and the search agent *)

Module AgentsMore.

Import TaskManager Scenario Observation TaskManagerProofs.

(** X4: [BaseAgent.process_response].  An "error" entry decides the
    outcome whatever else the result holds; completion is reported exactly
    when there is an "output" entry and no "error" entry, with the output
    as content; and exactly one of the two flags is set. *)
Theorem base_process_response_outcomes (result : gmap string string) :
  let item := BaseAgent.process_response result in
  (∀ err, result !! "error" = Some err →
          item = {| content := Some ("Error: " +:+ err);
                    is_task_complete := Some false;
                    require_user_input := Some true |})
  ∧ (is_task_complete item = Some true ↔
     result !! "error" = None ∧ content item = result !! "output"
     ∧ is_Some (result !! "output"))
  ∧ require_user_input item = negb <$> is_task_complete item.
Proof.
  intros item. subst item. unfold BaseAgent.process_response.
  destruct (result !! "error") as [err|] eqn:Herr;
    [| destruct (result !! "output") as [out|] eqn:Hout]; simpl.
  - split; [by intros ? [= ->] |].
    split; [split; [by intros [=] | by intros [[=] _]] | done].
  - split; [by intros ? [=] |].
    split; [split; [eauto | done] | done].
  - split; [by intros ? [=] |].
    split; [split; [by intros [=] | by intros (_ & _ & [? [=]])] | done].
Qed.

Lemma base_process_response_witness :
  BaseAgent.process_response
    (<["error" := "timeout"]> (<["output" := "42"]> ∅))
  = {| content := Some "Error: timeout"; is_task_complete := Some false;
       require_user_input := Some true |}.
Proof.
  apply (base_process_response_outcomes
           (<["error" := "timeout"]> (<["output" := "42"]> ∅))).
  reflexivity.
Defined.

(** X5: a result of the executor that goes through
    [BaseAgent.process_response] and then [_process_agent_response], for a
    task in the store: the task is stored as COMPLETED, with one artifact
    holding the output appended, exactly when the result has an "output"
    entry and no "error" entry; otherwise it is stored as INPUT_REQUIRED
    and its artifacts stay as they were. *)
Theorem base_result_stored (self : Self) (request : Request)
    (result : gmap string string) (s : TM) (old : Task) :
  tasks s !! id (params request) = Some old →
  ∃ r s',
    _process_agent_response self request (BaseAgent.process_response result) s
    = (Ok r, s')
    ∧ match result !! "error", result !! "output" with
      | None, Some out =>
          (status <$> tasks s' !! id (params request))
          = Some {| state := COMPLETED; message := None |}
          ∧ (artifacts <$> tasks s' !! id (params request))
            = Some (artifacts old
                    ++ [{| artifact_parts := [TextPart out]; index := 0;
                           append := None |}])
      | _, _ =>
          (state ∘ status <$> tasks s' !! id (params request))
          = Some INPUT_REQUIRED
          ∧ (artifacts <$> tasks s' !! id (params request))
            = Some (artifacts old)
      end.
Proof.
  intros Hold.
  destruct (process_agent_response_run self request
              (BaseAgent.process_response result) s old Hold)
    as (s' & Hrun & Ht & _).
  eexists _, s'. split; [exact Hrun |].
  rewrite Ht, lookup_insert_eq. unfold BaseAgent.process_response.
  destruct (result !! "error"); [done |].
  by destruct (result !! "output").
Qed.

Lemma base_result_stored_witness :
  ∃ r s',
    _process_agent_response (manager (scripted_agent (Ok hi) [] None) [])
      hello (BaseAgent.process_response (<["output" := "42"]> ∅)) store_with_t1
    = (Ok r, s')
    ∧ (artifacts <$> tasks s' !! "t1")
      = Some [{| artifact_parts := [TextPart "42"]; index := 0;
                 append := None |}].
Proof.
  destruct (base_result_stored (manager (scripted_agent (Ok hi) [] None) [])
              hello (<["output" := "42"]> ∅) store_with_t1 t1_waiting)
    as (r & s' & Hrun & Hstored); [reflexivity |].
  exists r, s'. split; [exact Hrun |].
  change (<["output":="42"]> ∅ !! "error") with (@None string) in Hstored.
  change (<["output":="42"]> ∅ !! "output") with (Some "42") in Hstored.
  apply Hstored.
Defined.

(** X6: [create_generic_form].  The form has the key "form_id" and the
    keys of [fields], nothing else; every field holds its default, or its
    own name in angle brackets when there is none -- also a field that is
    itself called "form_id", which thereby replaces the generated id; when
    no field has that name, "form_id" holds "form_" and the decimal
    digits of the number drawn, so different draws give different forms. *)
Theorem create_generic_form_entries {V} (randint : Z) (fields : gmap string V)
    (defaults : option (gmap string string)) :
  let form := BaseAgent.create_generic_form randint fields defaults in
  dom form = {["form_id"]} ∪ dom fields
  ∧ (∀ field, is_Some (fields !! field) →
       form !! field
       = Some (default ("<" +:+ field +:+ ">") (default ∅ defaults !! field)))
  ∧ (fields !! "form_id" = None →
     form !! "form_id" = Some ("form_" +:+ pretty randint)
     ∧ ∀ other, BaseAgent.create_generic_form other fields defaults = form →
                other = randint).
Proof.
  intros form. subst form. unfold BaseAgent.create_generic_form.
  split; [| split].
  - apply set_eq. intros k.
    rewrite elem_of_union, !elem_of_dom, lookup_union, elem_of_singleton.
    rewrite map_lookup_imap.
    destruct (decide (k = "form_id")) as [-> | Hk].
    + rewrite lookup_singleton_eq. split; [auto |]. intros _.
      destruct (fields !! "form_id"); simpl; eauto.
    + rewrite lookup_singleton_ne by done.
      destruct (fields !! k); simpl; split; eauto.
      * intros [? [=]].
      * intros [? | [? [=]]]; done.
  - intros field [v Hv]. rewrite lookup_union, map_lookup_imap, Hv. simpl.
    by destruct ({["form_id" := _]} !! field).
  - intros Hfree.
    assert (∀ n : Z,
      (map_imap (λ field (_ : V),
                   Some (default ("<" +:+ field +:+ ">")
                           (default ∅ defaults !! field))) fields
       ∪ {["form_id" := "form_" +:+ pretty n]}) !! "form_id"
      = Some ("form_" +:+ pretty n)) as Hid.
    { intros n. rewrite lookup_union, map_lookup_imap, Hfree. simpl.
      by rewrite lookup_singleton_eq. }
    split; [apply Hid |].
    intros other Heq.
    pose proof (Hid other) as Hother. rewrite Heq, Hid in Hother.
    injection Hother as Hother.
    change (pretty randint = pretty other) in Hother.
    symmetry. by apply (inj pretty).
Qed.

Lemma create_generic_form_witness :
  BaseAgent.create_generic_form 123456
    (<["form_id" := 0%nat]> (<["date" := 1%nat]> ∅))
    (Some (<["date" := "2024-01-01"]> ∅)) !! "form_id"
  = Some "<form_id>".
Proof.
  destruct (create_generic_form_entries 123456
              (<["form_id" := 0%nat]> (<["date" := 1%nat]> ∅))
              (Some (<["date" := "2024-01-01"]> ∅))) as (_ & Hfield & _).
  rewrite Hfield; [reflexivity | by eexists].
Defined.

(** X7: [SearchAgent.process_response] sets the two flags as
    [BaseAgent.process_response] does, for every result, and gives the
    same content whenever the result has an "error" or an "output" entry;
    it always writes four log records. *)
Theorem search_process_response_agrees (result : gmap string string) :
  let item := fst (SearchAgent.process_response result) in
  let base := BaseAgent.process_response result in
  is_task_complete item = is_task_complete base
  ∧ require_user_input item = require_user_input base
  ∧ (is_Some (result !! "error") ∨ is_Some (result !! "output") → item = base)
  ∧ length (snd (SearchAgent.process_response result)) = 4%nat.
Proof.
  intros item base. subst item base.
  unfold SearchAgent.process_response, BaseAgent.process_response.
  destruct (result !! "error") as [err|];
    [| destruct (result !! "output") as [out|]]; simpl;
    repeat split; try done.
  by intros [[? [=]] | [? [=]]].
Qed.

Lemma search_process_response_witness :
  fst (SearchAgent.process_response (<["output" := "Paris"]> ∅))
  = BaseAgent.process_response (<["output" := "Paris"]> ∅).
Proof.
  apply (search_process_response_agrees (<["output" := "Paris"]> ∅)).
  right. by eexists.
Defined.

(** X8: the items of [SearchAgent.stream].  When the stream ends normally
    it is a run of in-progress items (both flags false, content not
    empty) followed by one last item with exactly one flag set, the
    processed result of [ainvoke]; when the executor raises, in the event
    stream or in [ainvoke], only in-progress items were yielded. *)
Theorem search_stream_shape (executor : SearchAgent.AgentExecutor)
    (query sessionId : string) :
  let '(items, failure, _) := SearchAgent.stream executor query sessionId in
  let in_progress (item : AgentItem) :=
    is_task_complete item = Some false ∧ require_user_input item = Some false
    ∧ content item ≠ Some "" ∧ content item ≠ None in
  match failure with
  | None =>
      ∃ init last result,
        items = init ++ [last] ∧ Forall in_progress init
        ∧ SearchAgent.ainvoke executor query sessionId = Ok result
        ∧ last = fst (SearchAgent.process_response result)
        ∧ require_user_input last = negb <$> is_task_complete last
  | Some e =>
      Forall in_progress items
      ∧ (snd (SearchAgent.astream_events executor query sessionId) = Some e
         ∨ SearchAgent.ainvoke executor query sessionId = Raise e)
  end.
Proof.
  unfold SearchAgent.stream.
  destruct (SearchAgent.astream_events executor query sessionId)
    as [steps failure] eqn:Hsteps.
  assert (Forall (λ item : AgentItem,
            is_task_complete item = Some false
            ∧ require_user_input item = Some false
            ∧ content item ≠ Some "" ∧ content item ≠ None)
            (omap SearchAgent.step_item steps)) as Hinit.
  { apply Forall_forall. intros item Hitem.
    apply list_elem_of_omap in Hitem as (step & _ & Hstep).
    destruct step as [text | |]; simpl in Hstep; [| | done].
    - injection Hstep as <-. simpl. repeat split; [| done].
      destruct (String.eqb text "") eqn:Htext; [done |].
      apply String.eqb_neq in Htext. congruence.
    - injection Hstep as <-. by simpl. }
  destruct failure as [e|]; simpl.
  - split; [exact Hinit | by left].
  - destruct (SearchAgent.ainvoke executor query sessionId)
      as [result | e] eqn:Hend.
    + destruct (SearchAgent.process_response result) as [item out] eqn:Hitem.
      eexists _, item, result. repeat split; [exact Hinit | ..].
      * by rewrite Hitem.
      * replace item with (fst (SearchAgent.process_response result))
          by (by rewrite Hitem).
        unfold SearchAgent.process_response.
        destruct (result !! "error"); [done |].
        by destruct (result !! "output").
    + split; [exact Hinit | by right].
Qed.

End AgentsMore.

(** ** More on the task manager *)

Module TaskManagerMore.

Import TaskManager Scenario Observation Published Frame TaskManagerProofs.

(** *** Validation *)

Lemma validate_request_returns (self : Self) (request : Request) (s : TM) :
  ∃ r s', _validate_request self request s = (Ok r, s')
          ∧ observable s' = observable s
          ∧ (r = None → s' = s).
Proof.
  unfold _validate_request. run.
  destruct (negb _); [eexists _, _; by split |].
  destruct (pushNotification (params request)) as [cfg|];
    [| eexists _, _; by split].
  destruct (String.eqb (url cfg) ""); eexists _, _; by split.
Qed.

(** X9: a request whose output modes are compatible but whose push
    configuration has an empty URL is rejected by both handlers with
    [InvalidParamsError], before anything is stored, queued or
    scheduled. *)
Theorem missing_push_url_rejected_without_mutation
    (self : Self) (request : Request) (s : TM) (config : PushNotificationConfig) :
  are_modalities_compatible (acceptedOutputModes (params request))
    (SUPPORTED_CONTENT_TYPES (agent self)) = true →
  pushNotification (params request) = Some config →
  url config = "" →
  (∃ s', on_send_task self request s
         = (Ok {| response_id := request_id request; result := None;
                  error := Some (InvalidParamsError
                                   "Push notification URL is missing") |}, s')
         ∧ observable s' = observable s)
  ∧ (∃ s', on_send_task_subscribe self request s
           = (Ok (ErrorResponse
                    {| response_id := request_id request; result := None;
                       error := Some (InvalidParamsError
                                        "Push notification URL is missing") |}),
              s')
           ∧ observable s' = observable s).
Proof.
  intros Hcompat Hpush Hurl.
  assert (_validate_request self request s
          = (Ok (Some {| response_id := request_id request; result := None;
                         error := Some (InvalidParamsError
                                          "Push notification URL is missing") |}),
             set_log (λ l, l ++ [{| level := WARNING;
                template := "Push notification URL is missing" |}]) s))
    as Hval.
  { unfold _validate_request. rewrite Hcompat, Hpush, Hurl. reflexivity. }
  split.
  - unfold on_send_task. run. rewrite Hval. simpl. eauto.
  - unfold on_send_task_subscribe. run. rewrite Hval. simpl. eauto.
Qed.

Lemma missing_push_url_witness :
  ∃ s', on_send_task (manager (scripted_agent (Ok hi) [] None) adjusted_imports)
          {| request_id := "r7";
             params := {| id := "t1"; sessionId := "s1";
                          params_message := {| role := "user";
                                               parts := [TextPart "hello"] |};
                          acceptedOutputModes := ["text"];
                          pushNotification := Some {| url := "" |};
                          historyLength := None |} |} store_with_t1
        = (Ok {| response_id := "r7"; result := None;
                 error := Some (InvalidParamsError
                                  "Push notification URL is missing") |}, s')
        ∧ observable s' = observable store_with_t1.
Proof.
  apply (missing_push_url_rejected_without_mutation
           (manager (scripted_agent (Ok hi) [] None) adjusted_imports)
           {| request_id := "r7";
              params := {| id := "t1"; sessionId := "s1";
                           params_message := {| role := "user";
                                                parts := [TextPart "hello"] |};
                           acceptedOutputModes := ["text"];
                           pushNotification := Some {| url := "" |};
                           historyLength := None |} |} store_with_t1
           {| url := "" |}); reflexivity.
Defined.

(** *** The synchronous path: what is stored and notified *)

Lemma send_task_notification_configured (self : Self) (task : Task) (s : TM)
    (config : PushNotificationConfig) :
  push_notification_infos s !! task_id task = Some config →
  ∃ s', send_task_notification self task s = (Ok tt, s')
        ∧ push_calls s' = push_calls s ++ [(url config, task)]
        ∧ tasks s' = tasks s
        ∧ push_notification_infos s' = push_notification_infos s
        ∧ task_sse_subscribers s' = task_sse_subscribers s
        ∧ background s' = background s.
Proof.
  intros Hcfg.
  unfold send_task_notification, has_push_notification_info,
    get_push_notification_info, send_push_notification.
  run.
  rewrite bool_decide_eq_true_2 by eauto. simpl. rewrite Hcfg.
  destruct (deliver _ _ _); simpl; eauto 10.
Qed.

(** The calls made to the sender by one notification. *)
Lemma send_task_notification_calls (self : Self) (task : Task) (s : TM) :
  ∃ s', send_task_notification self task s = (Ok tt, s')
        ∧ push_calls s'
          = push_calls s
            ++ match push_notification_infos s !! task_id task with
               | Some config => [(url config, task)]
               | None => []
               end
        ∧ tasks s' = tasks s
        ∧ push_notification_infos s' = push_notification_infos s.
Proof.
  destruct (push_notification_infos s !! task_id task) as [config|] eqn:Hcfg.
  - destruct (send_task_notification_configured self task s config Hcfg)
      as (s' & Hrun & Hcalls & Ht & Hp & _).
    eauto.
  - rewrite (send_task_notification_unconfigured self task s Hcfg).
    eexists. split; [reflexivity |]. simpl. by rewrite app_nil_r.
Qed.

(** The handler up to the extraction of the query: the task is in the
    store in state WORKING and one notification was made for it. *)
Lemma on_send_task_prefix (self : Self) (request : Request) (s : TM) :
  fst (_validate_request self request s) = Ok None →
  ∃ working s1,
    tasks s1 !! id (params request) = Some working
    ∧ task_id working
      = default (id (params request))
          (task_id <$> tasks s !! id (params request))
    ∧ status working = {| state := WORKING; message := None |}
    ∧ artifacts working
      = default [] (artifacts <$> tasks s !! id (params request))
    ∧ push_notification_infos s1 = push_notification_infos s
    ∧ push_calls s1
      = push_calls s
        ++ match push_notification_infos s !! task_id working with
           | Some config => [(url config, working)]
           | None => []
           end
    ∧ on_send_task self request s
      = (query ← _get_user_query self (params request);
         agent_response ←
           try_except
             (match invoke (agent self) query (sessionId (params request)) with
              | Ok r => ret r
              | Raise e => raise e
              end)
             (λ e, logger ERROR "Error invoking agent: {e}";;
                   raise (ValueError_f "Error invoking agent: " e));
         _process_agent_response self request agent_response) s1.
Proof.
  intros Hval. unfold on_send_task.
  unfold mbind, M_bind, bind at 1.
  rewrite (validate_passes_pure self request s s Hval).
  unfold bind at 1. unfold upsert_task.
  unfold mbind, M_bind, bind at 1, gets at 1.
  destruct (tasks s !! id (params request)) as [t|] eqn:Ht.
  - unfold ret at 1. unfold bind at 1.
    rewrite (update_store_known _ _ _ _ _ Ht). unfold bind at 1.
    match goal with
    | |- context [send_task_notification ?a ?b ?c] =>
        destruct (send_task_notification_calls a b c)
          as (s1 & -> & Hcalls & Htasks & Hinfos)
    end.
    simpl in Hcalls, Htasks, Hinfos.
    match type of Htasks with _ = <[_ := ?w]> _ => exists w, s1 end.
    split; [| split; [| split; [| split; [| split; [| split]]]]];
      [| | | | exact Hinfos | exact Hcalls | reflexivity].
    + rewrite Htasks. apply lookup_insert_eq.
    + reflexivity.
    + reflexivity.
    + simpl. by rewrite app_nil_r.
  - unfold bind at 1, modify at 1. unfold bind at 1, ret at 1.
    unfold bind at 1.
    rewrite (update_store_known _ _ _ (set_tasks _ s) _
               (lookup_insert_eq _ _ _)).
    unfold bind at 1.
    match goal with
    | |- context [send_task_notification ?a ?b ?c] =>
        destruct (send_task_notification_calls a b c)
          as (s1 & -> & Hcalls & Htasks & Hinfos)
    end.
    simpl in Hcalls, Htasks, Hinfos.
    match type of Htasks with _ = <[_ := ?w]> _ => exists w, s1 end.
    split; [| split; [| split; [| split; [| split; [| split]]]]];
      [| | | | exact Hinfos | exact Hcalls | reflexivity].
    + rewrite Htasks. apply lookup_insert_eq.
    + reflexivity.
    + reflexivity.
    + reflexivity.
Qed.

(** X10: when the query cannot be extracted from a validated request (no
    parts, a first part that is not text, or [TextPart] not imported),
    [on_send_task] raises that exception only after the task was stored:
    the task is left in state WORKING. *)
Theorem on_send_task_query_failure_leaves_working
    (self : Self) (request : Request) (s : TM) (e : exn) :
  fst (_validate_request self request s) = Ok None →
  fst (_get_user_query self (params request) s) = Raise e →
  ∃ s', on_send_task self request s = (Raise e, s')
        ∧ (status <$> tasks s' !! id (params request))
          = Some {| state := WORKING; message := None |}.
Proof.
  intros Hval Hquery.
  destruct (on_send_task_prefix self request s Hval)
    as (working & s1 & Hworking & _ & Hstatus & _ & _ & _ & ->).
  unfold mbind, M_bind, bind at 1.
  rewrite (get_user_query_pure self (params request) s1 s), Hquery.
  eexists. split; [reflexivity |].
  by rewrite Hworking, <- Hstatus.
Qed.

Lemma on_send_task_query_failure_witness :
  ∃ s', on_send_task (manager (scripted_agent (Ok hi) [] None) adjusted_imports)
          (send_request (OtherPart "file") ["text"]) empty_TM
        = (Raise (ValueError "Only text parts are supported"), s')
        ∧ (status <$> tasks s' !! "t1")
          = Some {| state := WORKING; message := None |}.
Proof.
  apply (on_send_task_query_failure_leaves_working
           (manager (scripted_agent (Ok hi) [] None) adjusted_imports)
           (send_request (OtherPart "file") ["text"]) empty_TM);
    reflexivity.
Defined.



(** X12: what a validated request whose query is extracted leaves behind
    when the agent answers.  The response carries the task; its status is
    INPUT_REQUIRED with the content as message when the answer asks for
    input, COMPLETED otherwise; its artifacts are the earlier ones, plus
    one built from the content in the COMPLETED case only; and the store
    holds that status under the request's task id. *)
Theorem on_send_task_outcome (self : Self) (request : Request) (s : TM)
    (query : string) (answer : AgentItem) :
  fst (_validate_request self request s) = Ok None →
  fst (_get_user_query self (params request) s) = Ok query →
  invoke (agent self) query (sessionId (params request)) = Ok answer →
  let parts := [TextPart (default "" (content answer))] in
  let earlier := default [] (artifacts <$> tasks s !! id (params request)) in
  ∃ task s',
    on_send_task self request s
    = (Ok {| response_id := request_id request; result := Some task;
             error := None |}, s')
    ∧ status task
      = (if default false (require_user_input answer)
         then {| state := INPUT_REQUIRED;
                 message := Some {| role := "agent"; parts := parts |} |}
         else {| state := COMPLETED; message := None |})
    ∧ artifacts task
      = (if default false (require_user_input answer) then earlier
         else earlier ++ [{| artifact_parts := parts; index := 0;
                             append := None |}])
    ∧ (status <$> tasks s' !! id (params request)) = Some (status task).
Proof.
  intros Hval Hquery Hinvoke parts earlier.
  destruct (on_send_task_run self request s query Hval Hquery)
    as (working & s1 & Hworking & _ & Harts & ->).
  rewrite Hinvoke.
  destruct (process_agent_response_run self request answer s1 working Hworking)
    as (s' & -> & Ht & _).
  eexists _, s'. split; [reflexivity |].
  rewrite Ht, lookup_insert_eq. unfold stored_after_response.
  subst parts earlier. rewrite <- Harts.
  by destruct (default false (require_user_input answer)).
Qed.

Lemma on_send_task_outcome_witness :
  ∃ task s',
    on_send_task (manager (scripted_agent (Ok need_input) [] None) adjusted_imports)
      hello empty_TM
    = (Ok {| response_id := "r1"; result := Some task; error := None |}, s')
    ∧ status task
      = {| state := INPUT_REQUIRED;
           message := Some {| role := "agent";
                              parts := [TextPart "which table?"] |} |}
    ∧ artifacts task = [].
Proof.
  destruct (on_send_task_outcome
              (manager (scripted_agent (Ok need_input) [] None) adjusted_imports)
              hello empty_TM "hello" need_input)
    as (task & s' & Hrun & Hstatus & Harts & _);
    [reflexivity | reflexivity | reflexivity |].
  exists task, s'. auto.
Defined.

(** X13: with a push configuration stored for the task (kept under its own
    id), a send that the agent answers calls the sender exactly twice, both
    times with the stored URL: first with the task in state WORKING, then
    with the task as finally stored -- the full task, not the copy with
    the shortened history that is returned.  Without a stored
    configuration the sender is not called. *)
Theorem on_send_task_notifies_twice (self : Self) (request : Request) (s : TM)
    (query : string) (answer : AgentItem) :
  fst (_validate_request self request s) = Ok None →
  fst (_get_user_query self (params request) s) = Ok query →
  invoke (agent self) query (sessionId (params request)) = Ok answer →
  (∀ t, tasks s !! id (params request) = Some t →
        task_id t = id (params request)) →
  ∃ working final s',
    on_send_task self request s
    = (Ok {| response_id := request_id request;
             result := Some (append_task_history final
                               (historyLength (params request)));
             error := None |}, s')
    ∧ state (status working) = WORKING
    ∧ tasks s' !! id (params request) = Some final
    ∧ push_calls s'
      = push_calls s
        ++ match push_notification_infos s !! id (params request) with
           | Some config => [(url config, working); (url config, final)]
           | None => []
           end.
Proof.
  intros Hval Hquery Hinvoke Hkey.
  destruct (on_send_task_prefix self request s Hval)
    as (working & s1 & Hworking & Hid & Hstatus & _ & Hinfos & Hcalls & ->).
  assert (task_id working = id (params request)) as Hid'.
  { rewrite Hid. destruct (tasks s !! id (params request)) as [t|] eqn:Ht;
      simpl; [by apply Hkey | done]. }
  rewrite Hid' in Hcalls.
  unfold mbind, M_bind, bind at 1.
  rewrite (get_user_query_pure self (params request) s1 s), Hquery.
  unfold bind at 1, try_except. rewrite Hinvoke. unfold ret at 1.
  unfold _process_agent_response.
  set (final := stored_after_response working answer).
  assert (∃ st arts,
    update_store (id (params request)) st arts s1
    = (Ok final, set_tasks <[id (params request) := final]> s1)
    ∧ (let '(task_status, artifact) :=
         if default false (require_user_input answer)
         then ({| state := INPUT_REQUIRED;
                  message := Some {| role := "agent";
                     parts := [TextPart (default "" (content answer))] |} |},
               None)
         else ({| state := COMPLETED; message := None |},
               Some {| artifact_parts := [TextPart (default "" (content answer))];
                       index := 0; append := None |}) in
       (task_status, match artifact with None => None | Some a => Some [a] end))
      = (st, arts)) as (st & arts & Hupd & Hbranch).
  { unfold final, stored_after_response.
    destruct (default false (require_user_input answer)); eexists _, _;
      (split; [| reflexivity]);
      rewrite (update_store_known _ _ _ _ _ Hworking); simpl;
      by rewrite ?app_nil_r. }
  exists working, final.
  destruct (default false (require_user_input answer));
    injection Hbranch as <- <-;
    unfold mbind, M_bind, bind at 1; rewrite Hupd; unfold bind at 1;
    (match goal with
     | |- context [send_task_notification ?a ?b ?c] =>
         destruct (send_task_notification_calls a b c)
           as (s' & -> & Hcalls' & Htasks' & _)
     end);
    simpl in Hcalls', Htasks';
    (assert (task_id final = id (params request)) as Hfinal
       by (unfold final, stored_after_response;
           destruct (default false (require_user_input answer)); exact Hid'));
    rewrite Hfinal, Hinfos in Hcalls';
    exists s'; (split; [reflexivity |]);
    (split; [by rewrite Hstatus |]);
    (split; [rewrite Htasks'; apply lookup_insert_eq |]);
    rewrite Hcalls', Hcalls;
    destruct (push_notification_infos s !! id (params request));
    by rewrite <- app_assoc.
Qed.

Lemma on_send_task_notifies_twice_witness :
  ∃ working final s',
    on_send_task (manager (scripted_agent (Ok hi) [] None) adjusted_imports)
      hello
      (set_push_notification_infos <["t1" := {| url := "http://hook" |}]>
         store_with_t1)
    = (Ok {| response_id := "r1";
             result := Some (append_task_history final None);
             error := None |}, s')
    ∧ push_calls s' = [("http://hook", working); ("http://hook", final)].
Proof.
  destruct (on_send_task_notifies_twice
              (manager (scripted_agent (Ok hi) [] None) adjusted_imports)
              hello
              (set_push_notification_infos <["t1" := {| url := "http://hook" |}]>
                 store_with_t1) "hello" hi)
    as (working & final & s' & Hrun & _ & _ & Hcalls);
    [reflexivity | reflexivity | reflexivity | |].
  - intros t Ht. vm_compute in Ht. by injection Ht as <-.
  - exists working, final, s'. split; [exact Hrun | exact Hcalls].
Defined.

(** *** Subscribing and push configurations *)

(** X14: a validated subscribe request returns the event stream of a new,
    empty queue added after the queues the task already had, schedules
    exactly one driver for the request and leaves the other tasks'
    queues and the push configurations alone; the task is in the store,
    and nothing has been asked of the agent yet: a new task is still
    SUBMITTED. *)
Theorem on_send_task_subscribe_registers (self : Self) (request : Request)
    (s : TM) :
  fst (_validate_request self request s) = Ok None →
  let earlier :=
    default [] (task_sse_subscribers s !! id (params request)) in
  ∃ s',
    on_send_task_subscribe self request s
    = (Ok (EventStream (request_id request) (id (params request))
             (length earlier)), s')
    ∧ task_sse_subscribers s'
      = <[id (params request) := earlier ++ [[]]]> (task_sse_subscribers s)
    ∧ background s' = background s ++ [request]
    ∧ push_notification_infos s' = push_notification_infos s
    ∧ push_calls s' = push_calls s
    ∧ (status <$> tasks s' !! id (params request))
      = Some (default {| state := SUBMITTED; message := None |}
                (status <$> tasks s !! id (params request))).
Proof.
  intros Hval earlier. subst earlier. unfold on_send_task_subscribe.
  unfold try_except, mbind, M_bind, bind at 1.
  rewrite (validate_passes_pure self request s s Hval).
  unfold upsert_task, setup_sse_consumer. run.
  destruct (tasks s !! id (params request)) as [t|] eqn:Ht; simpl.
  - eexists. split; [reflexivity |]. simpl. by rewrite Ht.
  - eexists. split; [reflexivity |]. simpl. by rewrite lookup_insert_eq.
Qed.

Lemma on_send_task_subscribe_registers_witness :
  ∃ s',
    on_send_task_subscribe (manager (scripted_agent (Ok hi) [] None) [])
      hello (subscribed (manager (scripted_agent (Ok hi) [] None) []) hello)
    = (Ok (EventStream "r1" "t1" 1), s')
    ∧ task_sse_subscribers s' !! "t1" = Some [[]; []]
    ∧ background s' = [hello; hello].
Proof.
  destruct (on_send_task_subscribe_registers
              (manager (scripted_agent (Ok hi) [] None) []) hello
              (subscribed (manager (scripted_agent (Ok hi) [] None) []) hello))
    as (s' & Hrun & Hqueues & Hback & _); [reflexivity |].
  exists s'. split; [exact Hrun |]. split; [| exact Hback].
  rewrite Hqueues. by rewrite lookup_insert_eq.
Defined.

(** X15: once [set_push_notification_info] has accepted a configuration
    (its URL verified), it returns [True], replaces any configuration the
    task had, and the next notification for a task with that id makes
    exactly one call to the sender, with the URL of that configuration and
    the task itself. *)
Theorem push_config_set_then_notified (self : Self) (task : Task)
    (config : PushNotificationConfig) (s : TM) :
  verify_push_notification_url (notification_sender_auth self) (url config)
  = true →
  ∃ s1 s2,
    set_push_notification_info self (task_id task) config s = (Ok true, s1)
    ∧ push_notification_infos s1
      = <[task_id task := config]> (push_notification_infos s)
    ∧ send_task_notification self task s1 = (Ok tt, s2)
    ∧ push_calls s2 = push_calls s ++ [(url config, task)]
    ∧ tasks s2 = tasks s.
Proof.
  intros Hverify. unfold set_push_notification_info.
  rewrite Hverify. simpl. unfold super_set_push_notification_info. run.
  eexists _. 
  match goal with
  | |- ∃ s2, (_, ?st) = _ ∧ _ =>
      destruct (send_task_notification_configured self task st config)
        as (s2 & Hrun & Hcalls & Ht & _);
        [simpl; apply lookup_insert_eq |]
  end.
  exists s2. by rewrite Hrun, Hcalls, Ht.
Qed.

Lemma push_config_set_then_notified_witness :
  ∃ s1 s2,
    set_push_notification_info (manager (scripted_agent (Ok hi) [] None) [])
      "t1" {| url := "http://hook" |} store_with_t1 = (Ok true, s1)
    ∧ send_task_notification (manager (scripted_agent (Ok hi) [] None) [])
        t1_waiting s1 = (Ok tt, s2)
    ∧ push_calls s2 = [("http://hook", t1_waiting)].
Proof.
  destruct (push_config_set_then_notified
              (manager (scripted_agent (Ok hi) [] None) []) t1_waiting
              {| url := "http://hook" |} store_with_t1)
    as (s1 & s2 & Hset & _ & Hsend & Hcalls & _); [reflexivity |].
  exists s1, s2. auto.
Defined.

(** *** The streaming driver: what escapes, what is published *)

(** X16: an exception that derives from [Exception] leaves the driver
    exactly when [_get_user_query], called before the [try], raises it;
    and whenever [_get_user_query] raises, the driver has changed nothing:
    no status stored, nothing published, nothing logged. *)
Theorem driver_raises_iff_query_fails (self : Self) (request : Request)
    (s : TM) (e : exn) :
  (is_exception e = true →
   (fst (_run_streaming_task self request s) = Raise e
    ↔ fst (_get_user_query self (params request) s) = Raise e))
  ∧ (fst (_get_user_query self (params request) s) = Raise e →
     _run_streaming_task self request s = (Raise e, s)).
Proof.
  destruct (fst (_get_user_query self (params request) s)) as [query | e0]
    eqn:Hquery.
  - split; [| discriminate]. intros He.
    destruct (driver_catches_inside_try self request s query Hquery)
      as [-> | (e1 & -> & He1)]; split; try discriminate.
    intros [= ->]. congruence.
  - assert (_run_streaming_task self request s = (Raise e0, s)) as ->.
    { unfold _run_streaming_task. unfold mbind, M_bind, bind at 1.
      by rewrite (get_user_query_pure self (params request) s s), Hquery. }
    simpl. split; [intros _; split; by intros [= ->] | by intros [= ->]].
Qed.

Lemma driver_raises_iff_query_fails_witness :
  _run_streaming_task (manager (scripted_agent (Ok hi) [done_item] None) [])
    hello store_with_t1
  = (Raise (NameError "TextPart"), store_with_t1).
Proof.
  destruct (driver_raises_iff_query_fails
              (manager (scripted_agent (Ok hi) [done_item] None) [])
              hello store_with_t1 (NameError "TextPart")) as [_ Hsame].
  apply Hsame. reflexivity.
Defined.











(** *** What the handlers never touch *)

Section Keeps.

Context {B : Type} (part : TM → B).
Hypothesis part_tasks : ∀ f s, part (set_tasks f s) = part s.
Hypothesis part_calls : ∀ f s, part (set_push_calls f s) = part s.
Hypothesis part_log : ∀ f s, part (set_log f s) = part s.

Lemma keeps_ret {A} (a : A) : keeps part (ret a).
Proof. by intros s. Qed.

Lemma keeps_raise {A} (e : exn) : keeps part (@raise A e).
Proof. by intros s. Qed.

Lemma keeps_gets {A} (f : TM → A) : keeps part (gets f).
Proof. by intros s. Qed.

Lemma keeps_bind {A C} (m : M A) (k : A → M C) :
  keeps part m → (∀ a, keeps part (k a)) → keeps part (m ≫= k).
Proof.
  intros Hm Hk s. unfold mbind, M_bind, bind.
  specialize (Hm s). destruct (m s) as [[a|e] s1]; simpl in *.
  - by rewrite Hk.
  - done.
Qed.

Lemma keeps_try_except {A} (body : M A) (handler : exn → M A) :
  keeps part body → (∀ e, keeps part (handler e)) →
  keeps part (try_except body handler).
Proof.
  intros Hb Hh s. unfold try_except.
  specialize (Hb s). destruct (body s) as [[a|e] s1]; simpl in *.
  - done.
  - destruct (is_exception e); [by rewrite Hh | done].
Qed.

Lemma keeps_logger (l : Level) (fmt : string) : keeps part (logger l fmt).
Proof. intros s. apply part_log. Qed.

Lemma keeps_global (imports : list string) (name : string) :
  keeps part (global imports name).
Proof. unfold global. destruct (bound _ _); [apply keeps_ret | apply keeps_raise]. Qed.

Lemma keeps_local {A} (name : string) (v : option A) :
  keeps part (local name v).
Proof. destruct v; [apply keeps_ret | apply keeps_raise]. Qed.

Lemma keeps_upsert_task (p : TaskSendParams) : keeps part (upsert_task p).
Proof.
  unfold upsert_task. apply keeps_bind; [apply keeps_gets |].
  intros [t|]; [apply keeps_ret |].
  apply keeps_bind; [intros s; apply part_tasks | intros _; apply keeps_ret].
Qed.

Lemma keeps_update_store (task_id : string) (st : TaskStatus)
    (arts : option (list Artifact)) :
  keeps part (update_store task_id st arts).
Proof.
  unfold update_store. apply keeps_bind; [apply keeps_gets |].
  intros [t|]; [| apply keeps_raise].
  apply keeps_bind; [intros s; apply part_tasks | intros _; apply keeps_ret].
Qed.

Lemma keeps_send_task_notification (self : Self) (task : Task) :
  keeps part (send_task_notification self task).
Proof.
  unfold send_task_notification, has_push_notification_info,
    get_push_notification_info, send_push_notification.
  apply keeps_bind; [apply keeps_gets | intros has].
  destruct (negb has); [apply keeps_logger |].
  apply keeps_bind; [apply keeps_gets | intros [config|]].
  - apply keeps_bind; [apply keeps_logger | intros _].
    apply keeps_bind; [intros s; apply part_calls | intros _].
    destruct (deliver _ _ _); [apply keeps_ret | apply keeps_logger].
  - apply keeps_bind; [apply keeps_logger | intros _; apply keeps_raise].
Qed.

Lemma keeps_validate_request (self : Self) (request : Request) :
  keeps part (_validate_request self request).
Proof.
  unfold _validate_request. simpl.
  destruct (negb _).
  { apply keeps_bind; [apply keeps_logger | intros _; apply keeps_ret]. }
  destruct (pushNotification (params request)) as [cfg|]; [| apply keeps_ret].
  destruct (String.eqb (url cfg) ""); [| apply keeps_ret].
  apply keeps_bind; [apply keeps_logger | intros _; apply keeps_ret].
Qed.

Lemma keeps_get_user_query (self : Self) (p : TaskSendParams) :
  keeps part (_get_user_query self p).
Proof.
  unfold _get_user_query.
  destruct (parts (params_message p)) as [|part0 rest]; [apply keeps_raise |].
  apply keeps_bind; [apply keeps_global | intros _].
  destruct part0; [apply keeps_ret | apply keeps_raise].
Qed.

Lemma keeps_process_agent_response (self : Self) (request : Request)
    (agent_response : AgentItem) :
  keeps part (_process_agent_response self request agent_response).
Proof.
  unfold _process_agent_response.
  destruct (default false (require_user_input agent_response));
    (apply keeps_bind; [apply keeps_update_store | intros task];
     apply keeps_bind; [apply keeps_send_task_notification | intros _];
     apply keeps_ret).
Qed.

Lemma keeps_on_send_task (self : Self) (request : Request) :
  keeps part (on_send_task self request).
Proof.
  unfold on_send_task.
  apply keeps_bind; [apply keeps_validate_request | intros [err|]];
    [apply keeps_ret |].
  apply keeps_bind; [apply keeps_upsert_task | intros _].
  apply keeps_bind; [apply keeps_update_store | intros task].
  apply keeps_bind; [apply keeps_send_task_notification | intros _].
  apply keeps_bind; [apply keeps_get_user_query | intros query].
  apply keeps_bind; [| intros r; apply keeps_process_agent_response].
  apply keeps_try_except.
  - simpl. destruct (invoke _ _ _); [apply keeps_ret | apply keeps_raise].
  - intros e. apply keeps_bind; [apply keeps_logger | intros _; apply keeps_raise].
Qed.

Hypothesis part_queues : ∀ f s, part (set_task_sse_subscribers f s) = part s.

Lemma keeps_enqueue_events_for_sse (task_id : string) (ev : QueueItem) :
  keeps part (enqueue_events_for_sse task_id ev).
Proof.
  unfold enqueue_events_for_sse. apply keeps_bind; [apply keeps_gets |].
  intros [qs|]; [intros s; apply part_queues | apply keeps_ret].
Qed.

Lemma keeps_stream_item (self : Self) (p : TaskSendParams) (item : AgentItem)
    (artifact : option Artifact) :
  keeps part (stream_item self p item artifact).
Proof.
  unfold stream_item. simpl.
  destruct (negb _ && negb _);
    [| destruct (default false (require_user_input item))];
    (apply keeps_bind; [apply keeps_update_store | intros task];
     apply keeps_bind; [apply keeps_send_task_notification | intros _];
     apply keeps_bind; [apply keeps_local | intros a];
     apply keeps_bind; [apply keeps_global | intros _];
     apply keeps_bind; [apply keeps_enqueue_events_for_sse | intros _];
     apply keeps_bind; [apply keeps_global | intros _];
     apply keeps_bind; [apply keeps_enqueue_events_for_sse | intros _];
     apply keeps_ret).
Qed.

Lemma keeps_stream_loop (self : Self) (p : TaskSendParams)
    (items : list AgentItem) (artifact : option Artifact) :
  keeps part (stream_loop self p items artifact).
Proof.
  revert artifact. induction items as [|item rest IH]; intros artifact; simpl.
  - apply keeps_ret.
  - apply keeps_bind; [apply keeps_stream_item | intros a; apply IH].
Qed.

Lemma keeps_run_streaming_task (self : Self) (request : Request) :
  keeps part (_run_streaming_task self request).
Proof.
  unfold _run_streaming_task.
  apply keeps_bind; [apply keeps_get_user_query | intros query].
  apply keeps_try_except.
  - simpl. destruct (stream _ _ _) as [items failure].
    apply keeps_bind; [apply keeps_stream_loop | intros _].
    destruct failure; [apply keeps_raise | apply keeps_ret].
  - intros e. apply keeps_bind; [apply keeps_logger | intros _].
    apply keeps_enqueue_events_for_sse.
Qed.

End Keeps.

(** X20: whatever the request, the agent and the outcome, [on_send_task]
    leaves the push configurations, the subscribers' queues and the
    scheduled drivers as they were -- it publishes no event and never
    stores the push configuration that came with the request -- and the
    streaming driver leaves the push configurations and the scheduled
    drivers as they were. *)
Theorem handlers_leave_the_rest_alone (self : Self) (request : Request)
    (s : TM) :
  beside_tasks (snd (on_send_task self request s)) = beside_tasks s
  ∧ beside_queues (snd (_run_streaming_task self request s)) = beside_queues s.
Proof.
  split.
  - by apply (keeps_on_send_task beside_tasks).
  - by apply (keeps_run_streaming_task beside_queues).
Qed.

End TaskManagerMore.
